(** * egg-loader: the custom-hook loader mixin and the EggApplication core

    A shallow embedding of [lib/egg.js] (class [EggApplication]) and of the
    loader mixin that provides [loadCustomApp] / [loadCustomAgent].

    JavaScript values are an inductive type, a call that may raise returns a
    [Completion], and methods that mutate [this] are state transformers that
    hand back the state reached even when they raise. *)

From Stdlib Require Import List String Ascii ZArith Lia Bool Arith.
From Stdlib Require Import DecimalString.
Import ListNotations.
Open Scope string_scope.

Set Implicit Arguments.

(* ================================================================= *)
(** ** JavaScript values and completions *)

Module JS.

(** The numbers of the model are the safe integers, the integers every
    double represents exactly and [String] prints digit by digit, and
    [NaN]; the other doubles are left out. *)
Definition is_safe (n : Z) : bool := (Z.abs n <=? 9007199254740991)%Z.

Record SafeInteger : Type := {
  int_value : Z;
  int_safe : is_safe int_value = true
}.

(** The values the code inspects: primitives, plain objects, arrays and
    [Error] instances (an instance of a subclass such as [TypeError] is a
    [JSError] whose [name] is the subclass name), and the two kinds of value
    on which lines 188 and 191 of [egg.js] raise: an object without
    [toString] and [valueOf], as [Object.create(null)] makes, and an
    [Error] that was frozen. *)
#[warnings="-register-all"]
Inductive JSValue : Type :=
| JSUndefined
| JSNull
| JSBool (b : bool)
| JSNumber (n : SafeInteger)
| JSNaN
| JSString (s : string)
| JSObject
| JSArray (elems : list JSValue)
| JSError (name message : string)
| JSNullProtoObject
| JSFrozenError (name message : string).

(** The number [0]. *)
Definition zero : SafeInteger := {| int_value := 0; int_safe := eq_refl |}.

(** [typeof v === 'string'] *)
Definition is_string (v : JSValue) : bool :=
  match v with JSString _ => true | _ => false end.

(** [v instanceof Error] *)
Definition instanceof_Error (v : JSValue) : bool :=
  match v with JSError _ _ | JSFrozenError _ _ => true | _ => false end.

(** ToBoolean, the test behind [a || b]. *)
Definition truthy (v : JSValue) : bool :=
  match v with
  | JSUndefined | JSNull | JSNaN => false
  | JSBool b => b
  | JSNumber n => negb (Z.eqb (int_value n) 0)
  | JSString s => negb (String.eqb s "")
  | JSObject | JSArray _ | JSError _ _ | JSNullProtoObject
  | JSFrozenError _ _ => true
  end.

(** [a || b] *)
Definition js_or (a b : JSValue) : JSValue := if truthy a then a else b.

Definition string_of_Z (n : Z) : string :=
  NilZero.string_of_int (Z.to_int n).

Fixpoint join_with (sep : string) (l : list string) : string :=
  match l with
  | [] => ""
  | [s] => s
  | s :: rest => s ++ sep ++ join_with sep rest
  end.

(** Outcome of a call: it returns, or it raises a value. *)
Inductive Completion (A : Type) : Type :=
| Normal (a : A)
| Throw (e : JSValue).
Arguments Throw {A} e.

(** [TypeError]s the language itself raises. *)
Definition TypeError (message : string) : JSValue := JSError "TypeError" message.

(** [Error.prototype.toString] *)
Definition error_toString (name message : string) : string :=
  if String.eqb name "" then message
  else if String.eqb message "" then name
  else name ++ ": " ++ message.

(** [String(v)]: raises on an object that cannot be converted to a
    primitive. *)
Fixpoint js_String (v : JSValue) : Completion string :=
  match v with
  | JSUndefined => Normal "undefined"
  | JSNull => Normal "null"
  | JSBool true => Normal "true"
  | JSBool false => Normal "false"
  | JSNumber n => Normal (string_of_Z (int_value n))
  | JSNaN => Normal "NaN"
  | JSString s => Normal s
  | JSObject => Normal "[object Object]"
  | JSArray elems =>
      match
        (fix items (l : list JSValue) : Completion (list string) :=
         match l with
         | [] => Normal []
         | e :: rest =>
             match match e with
                   | JSUndefined | JSNull => Normal ""
                   | _ => js_String e
                   end with
             | Throw x => Throw x
             | Normal s =>
                 match items rest with
                 | Throw x => Throw x
                 | Normal ss => Normal (s :: ss)
                 end
             end
         end) elems
      with
      | Normal ss => Normal (join_with "," ss)
      | Throw x => Throw x
      end
  | JSError name message | JSFrozenError name message =>
      Normal (error_toString name message)
  | JSNullProtoObject =>
      Throw (TypeError "Cannot convert object to primitive value")
  end.

(** [v === s] for a string literal [s] *)
Definition strict_eq_string (v : JSValue) (s : string) : bool :=
  match v with JSString t => String.eqb t s | _ => false end.

(** A method body over a mutable state [S]: the state reached is returned
    on both outcomes, since a raise does not undo earlier writes. *)
Definition M (S A : Type) : Type := S -> Completion A * S.

Definition ret {S A} (a : A) : M S A := fun s => (Normal a, s).

Definition bind {S A B} (m : M S A) (k : A -> M S B) : M S B :=
  fun s =>
    match m s with
    | (Normal a, s') => k a s'
    | (Throw e, s') => (Throw e, s')
    end.

Definition throw {S A} (e : JSValue) : M S A := fun s => (Throw e, s).

(** A computation that does not touch the state. *)
Definition lift {S A} (c : Completion A) : M S A := fun s => (c, s).

Definition modify {S} (f : S -> S) : M S unit := fun s => (Normal tt, f s).

Definition get {S} : M S S := fun s => (Normal s, s).

(** [Array.prototype.forEach]: the callback runs on each element in
    ascending index order; a raise inside it leaves the loop. *)
Fixpoint forEach {S A} (l : list A) (f : A -> M S unit) : M S unit :=
  match l with
  | [] => ret tt
  | x :: xs => bind (f x) (fun _ => forEach xs f)
  end.

(** [assert(cond, message)] raises an AssertionError carrying [message]. *)
Definition AssertionError (message : string) : JSValue :=
  JSError "AssertionError" message.

Definition assert {S} (cond : bool) (message : string) : M S unit :=
  if cond then ret tt else throw (AssertionError message).

End JS.

Import JS.

Declare Scope js_scope.
Delimit Scope js_scope with js.
Notation "x <- m ;; k" := (bind m (fun x => k))
  (at level 61, m at next level, right associativity) : js_scope.
Notation "m ;;; k" := (bind m (fun _ => k))
  (at level 61, right associativity) : js_scope.
Open Scope js_scope.

(* ================================================================= *)
(** ** The loader mixin: [loadCustomApp] and [loadCustomAgent] *)

Module EggLoader.

Record LoadUnit : Type := { path : string }.

(** What the log of a run records about hooks. *)
Inductive HookEvent : Type :=
| HookBegin (file : string)
| HookReturn (file : string).

Section Loader.

(** The shared lifecycle object handed to every hook. *)
Variable Ctx : Type.

(** Node's [path.join]. *)
Variable path_join : string -> string -> string.

(** A hook runs against the context, may change it, and returns or
    raises. *)
Definition Hook : Type := Ctx -> Completion unit * Ctx.

(** The loader object ([this] inside the mixin). *)
Record Loader : Type := {
  app : Ctx;
  (* the result of [this.getLoadUnits()] *)
  loadUnits : list LoadUnit;
  (* the module resolver: the hook exported by a file, if the file exists *)
  resolve : string -> option Hook;
  (* observation only: every file [loadFile] was asked for so far *)
  requested : list string;
  (* observation only: begin and return of every hook invoked so far *)
  hook_log : list HookEvent
}.

Definition set_app (l : Loader) (c : Ctx) : Loader :=
  {| app := c; loadUnits := loadUnits l; resolve := resolve l;
     requested := requested l; hook_log := hook_log l |}.

Definition record_request (file : string) (l : Loader) : Loader :=
  {| app := app l; loadUnits := loadUnits l; resolve := resolve l;
     requested := requested l ++ [file]; hook_log := hook_log l |}.

Definition record_event (ev : HookEvent) (l : Loader) : Loader :=
  {| app := app l; loadUnits := loadUnits l; resolve := resolve l;
     requested := requested l; hook_log := hook_log l ++ [ev] |}.

Definition set_loadUnits (l : Loader) (us : list LoadUnit) : Loader :=
  {| app := app l; loadUnits := us; resolve := resolve l;
     requested := requested l; hook_log := hook_log l |}.

Definition getLoadUnits : M Loader (list LoadUnit) :=
  fun l => (Normal (loadUnits l), l).

(** Modelled from the spec: [this.loadFile] is defined by the base loader,
    which is not part of the mixin file.  Section 4.1: resolve the hook
    file; if absent, skip (not an error); if present, invoke it
    synchronously with the context as its sole argument; a raise of the
    hook propagates. *)
Definition loadFile (filepath : string) : M Loader unit :=
  fun l =>
    let l := record_request filepath l in
    match resolve l filepath with
    | None => (Normal tt, l)
    | Some hook =>
        let l1 := record_event (HookBegin filepath) l in
        match hook (app l1) with
        | (Normal _, c) =>
            (Normal tt, record_event (HookReturn filepath) (set_app l1 c))
        | (Throw e, c) => (Throw e, set_app l1 c)
        end
    end.

Definition loadCustomApp : M Loader unit :=
  units <- getLoadUnits ;;
  forEach units (fun unit => loadFile (path_join (path unit) "app.js")).

Definition loadCustomAgent : M Loader unit :=
  units <- getLoadUnits ;;
  forEach units (fun unit => loadFile (path_join (path unit) "agent.js")).

(** The two context kinds and the operation that serves each. *)
Inductive Kind : Type := app_kind | agent_kind.

Definition loadCustom (k : Kind) : M Loader unit :=
  match k with
  | app_kind => loadCustomApp
  | agent_kind => loadCustomAgent
  end.

Definition hook_filename (k : Kind) : string :=
  match k with
  | app_kind => "app.js"
  | agent_kind => "agent.js"
  end.

(** What the two operations have in common, with the file name left
    open. *)
Definition load_named (file : string) : M Loader unit :=
  units <- getLoadUnits ;;
  forEach units (fun unit => loadFile (path_join (path unit) file)).

(** The file looked up for a unit. *)
Definition hook_path (k : Kind) (u : LoadUnit) : string :=
  path_join (path u) (hook_filename k).

(** The events a completed hook leaves in the log. *)
Definition bracket (l : Loader) (file : string) : list HookEvent :=
  match resolve l file with
  | None => []
  | Some _ => [HookBegin file; HookReturn file]
  end.

(** The files whose hooks were entered, in log order. *)
Fixpoint invoked (log : list HookEvent) : list string :=
  match log with
  | [] => []
  | HookBegin f :: rest => f :: invoked rest
  | HookReturn _ :: rest => invoked rest
  end.

(** The files among [fs] that have a hook, in the order of [fs]. *)
Definition present (l : Loader) (fs : list string) : list string :=
  filter (fun f => match resolve l f with Some _ => true | None => false end) fs.

End Loader.

End EggLoader.

(* ================================================================= *)
(** ** The readiness barrier mixed into the application *)

Module ReadyCallback.

(** The barrier is the package [ready-callback], required by [_initReady];
    its source is not among the files.  This module follows section 4.2 of
    the specification (register, complete, watchdog, status) and the READY
    rule of sections 4.3 and 5. *)

(** A task id is the name the caller gave or a value the barrier made up;
    the two can never collide. *)
Inductive TaskId : Type :=
| Named (name : string)
| Generated (n : nat).

Definition TaskId_eqb (a b : TaskId) : bool :=
  match a, b with
  | Named s, Named t => String.eqb s t
  | Generated n, Generated m => Nat.eqb n m
  | _, _ => false
  end.

(** Generated ids sort before named ones, names sort as strings. *)
Definition TaskId_leb (a b : TaskId) : bool :=
  match a, b with
  | Generated n, Generated m => Nat.leb n m
  | Generated _, Named _ => true
  | Named _, Generated _ => false
  | Named s, Named t => String.leb s t
  end.

Record Task : Type := {
  id : TaskId;
  registeredAt : N;
  timedOut : bool
}.

(** An armed one-shot timer. *)
Record Watchdog : Type := {
  wd_id : TaskId;
  wd_start : N;
  wd_delay : N
}.

Record Options : Type := { timeout : N }.

Inductive Event : Type :=
| ready_stat (done : TaskId) (remain : list TaskId)
| ready_timeout (late : TaskId)
| ready.

(** Modelled from the spec: the state of the readiness barrier of
    [ready-callback], whose source is missing.  Section 3 gives the pending
    set, section 4.2 the watchdogs and the configurable delay, sections 4.2
    and 5 the two conditions of [ready] and its once-only emission. *)
Record Barrier : Type := {
  opt : Options;
  pending : list Task;
  watchdogs : list Watchdog;
  now : N;
  (* the loader has finished all units *)
  loaded : bool;
  (* [ready] has been emitted *)
  fired : bool;
  next_uid : nat
}.

(** The "configurable delay (default 10 000 time-units)". *)
Definition default_timeout : N := 10000%N.

(** Modelled from the spec: the factory [require('ready-callback')(opt)],
    missing from the files; the delay is the one given, 10 000 by default. *)
Definition create (o : option Options) : Barrier :=
  {| opt := match o with
            | Some given => given
            | None => {| timeout := default_timeout |}
            end;
     pending := []; watchdogs := []; now := 0%N;
     loaded := false; fired := false; next_uid := 0 |}.

Definition is_pending (b : Barrier) (t : TaskId) : bool :=
  existsb (fun k => TaskId_eqb (id k) t) (pending b).

Definition task_leb (x y : Task) : bool :=
  if N.ltb (registeredAt x) (registeredAt y) then true
  else if N.ltb (registeredAt y) (registeredAt x) then false
  else TaskId_leb (id x) (id y).

Fixpoint insert_task (x : Task) (l : list Task) : list Task :=
  match l with
  | [] => [x]
  | y :: rest => if task_leb x y then x :: l else y :: insert_task x rest
  end.

Definition sort_tasks (l : list Task) : list Task :=
  fold_right insert_task [] l.

(** [status()]: the pending ids, by registration time, ties by id. *)
Definition status (b : Barrier) : list TaskId :=
  map id (sort_tasks (pending b)).

Definition DuplicateRegistration : JSValue :=
  JSError "DuplicateRegistration" "task id is already pending".

(** Modelled from the spec: [register(id?)] of the missing barrier.  An
    omitted id is generated and unique; an id already pending is refused
    with DuplicateRegistration and the state is left as it was; otherwise
    the task is stored and its one-shot watchdog started.  The result is the
    id the token closes over. *)
Definition register (given : option string) : M Barrier TaskId :=
  fun b =>
    let t := match given with
             | Some s => Named s
             | None => Generated (next_uid b)
             end in
    if is_pending b t then (Throw DuplicateRegistration, b)
    else
      (Normal t,
       {| opt := opt b;
          pending := pending b
                     ++ [{| id := t; registeredAt := now b; timedOut := false |}];
          watchdogs := watchdogs b
                       ++ [{| wd_id := t; wd_start := now b;
                              wd_delay := timeout (opt b) |}];
          now := now b;
          loaded := loaded b;
          fired := fired b;
          next_uid := match given with
                      | Some _ => next_uid b
                      | None => S (next_uid b)
                      end |}).

(** READY is entered when both conditions hold and it was not entered
    before. *)
Definition reaches_ready (b : Barrier) : bool :=
  match pending b with
  | [] => loaded b && negb (fired b)
  | _ :: _ => false
  end.

Definition fire_if_ready (b : Barrier) : Barrier * list Event :=
  if reaches_ready b then
    ({| opt := opt b; pending := pending b; watchdogs := watchdogs b;
        now := now b; loaded := loaded b; fired := true;
        next_uid := next_uid b |}, [ready])
  else (b, []).

(** Modelled from the spec: [complete(token)] of the missing barrier.  A
    task that is not pending makes it a silent no-op; otherwise the task is
    removed, [task_done] (here [ready_stat]) carries the id and the
    remaining ids, and [ready] follows if the set is empty, loading is over
    and [ready] was never emitted. *)
Definition complete (t : TaskId) (b : Barrier) : Barrier * list Event :=
  if is_pending b t then
    let b1 :=
      {| opt := opt b;
         pending := filter (fun k => negb (TaskId_eqb (id k) t)) (pending b);
         watchdogs := filter (fun w => negb (TaskId_eqb (wd_id w) t)) (watchdogs b);
         now := now b; loaded := loaded b; fired := fired b;
         next_uid := next_uid b |} in
    let (b2, evs) := fire_if_ready b1 in
    (b2, ready_stat t (status b1) :: evs)
  else (b, []).

(** Modelled from the spec: the end of loading, as sections 4.3 and 5 have
    it; with nothing pending the barrier goes straight to READY. *)
Definition load_finished (b : Barrier) : Barrier * list Event :=
  fire_if_ready
    {| opt := opt b; pending := pending b; watchdogs := watchdogs b;
       now := now b; loaded := true; fired := fired b;
       next_uid := next_uid b |}.

Definition due (clock : N) (w : Watchdog) : bool :=
  N.leb (wd_start w + wd_delay w) clock.

Definition mark_timed_out (late : list TaskId) (k : Task) : Task :=
  if existsb (TaskId_eqb (id k)) late
  then {| id := id k; registeredAt := registeredAt k; timedOut := true |}
  else k.

(** Modelled from the spec: the watchdogs of the missing barrier as time
    passes.  Every armed watchdog whose delay has elapsed emits [timeout]
    (here [ready_timeout]) once, is disarmed, and leaves its task pending. *)
Definition advance (d : N) (b : Barrier) : Barrier * list Event :=
  let clock := (now b + d)%N in
  let late := map wd_id (filter (due clock) (watchdogs b)) in
  ({| opt := opt b;
      pending := map (mark_timed_out late) (pending b);
      watchdogs := filter (fun w => negb (due clock w)) (watchdogs b);
      now := clock; loaded := loaded b; fired := fired b;
      next_uid := next_uid b |},
   map ready_timeout late).

(** What can happen to a barrier, in any interleaving. *)
Inductive Op : Type :=
| Register (given : option string)
| Complete (t : TaskId)
| LoadFinished
| Advance (d : N).

Definition step (o : Op) (b : Barrier) : Barrier * list Event :=
  match o with
  | Register given => (snd (register given b), [])
  | Complete t => complete t b
  | LoadFinished => load_finished b
  | Advance d => advance d b
  end.

Definition event_name (e : Event) : string :=
  match e with
  | ready_stat _ _ => "ready_stat"
  | ready_timeout _ => "ready_timeout"
  | ready => "ready"
  end.

Definition is_ready (e : Event) : bool :=
  match e with ready => true | _ => false end.

Definition count_ready (evs : list Event) : nat :=
  List.length (filter is_ready evs).

Definition id_value (t : TaskId) : JSValue :=
  match t with
  | Named s => JSString s
  | Generated n => JSString (NilZero.string_of_uint (Nat.to_uint n))
  end.

(** *** Quantities and invariants used to reason about runs *)

(** How many [ready] events a barrier may still emit. *)
Definition budget (b : Barrier) : nat := if fired b then 0 else 1.

(** Well-formedness of the timers: one per id at most, and only for ids
    that are pending. *)
Definition timers_ok (b : Barrier) : Prop :=
  NoDup (map wd_id (watchdogs b))
  /\ forall w, In w (watchdogs b) -> is_pending b (wd_id w) = true.

(** The configured delay never changes, and every timer carries it. *)
Definition delay_is (n : N) (b : Barrier) : Prop :=
  timeout (opt b) = n /\ Forall (fun w => wd_delay w = n) (watchdogs b).

End ReadyCallback.

(* ================================================================= *)
(** ** [lib/egg.js]: class [EggApplication] *)

(** The constructor's [options] argument; a property that is absent reads
    as [undefined]. *)
Module Options.

Record t : Type := {
  baseDir : JSValue;
  type : JSValue;
  plugins : JSValue
}.

(** [{}] *)
Definition empty : t :=
  {| baseDir := JSUndefined; type := JSUndefined; plugins := JSUndefined |}.

Definition set_baseDir (o : t) (v : JSValue) : t :=
  {| baseDir := v; type := type o; plugins := plugins o |}.

(** [options || {}], for a constructor called with or without the
    argument. *)
Definition or_empty (options : option t) : t :=
  match options with Some o => o | None => empty end.

End Options.

(** The part of Node's [process] and [fs] the constructor touches. *)
Module Process.

Inductive FileKind : Type := Directory | RegularFile.

(** Function objects are told apart by identity: the method on the
    prototype, or the fresh object each [bind] call creates. *)
Inductive FunctionRef : Type :=
| PrototypeMethod
| BoundFunction (oid : nat).

Record t : Type := {
  cwd : string;
  (* what the file system holds at each absolute path *)
  volume : string -> option FileKind;
  (* listeners of the 'unhandledRejection' event, in installation order *)
  unhandledRejection : list FunctionRef;
  next_oid : nat
}.

Definition is_absolute (path : string) : bool :=
  match path with
  | String "/" _ => true
  | _ => false
  end.

(** A relative path names a place under the working directory. *)
Definition absolute (dir path : string) : string :=
  if is_absolute path then path else dir ++ "/" ++ path.

(** What the [fs] module of the process finds at [path]: nothing at the
    empty path, and a relative path is resolved against [process.cwd()]. *)
Definition fs (p : t) (path : string) : option FileKind :=
  if String.eqb path "" then None else volume p (absolute (cwd p) path).

(** [process.cwd()] *)
Definition process_cwd : M t string := fun p => (Normal (cwd p), p).

(** [fs.existsSync(p)]: [false] for anything that is not an existing path. *)
Definition existsSync (v : JSValue) : M t bool :=
  fun p =>
    (Normal match v with
            | JSString s => match fs p s with Some _ => true | None => false end
            | _ => false
            end, p).

(** [fs.statSync(p)]: raises when there is nothing at [p]. *)
Definition statSync (v : JSValue) : M t FileKind :=
  fun p =>
    match v with
    | JSString s =>
        match fs p s with
        | Some k => (Normal k, p)
        | None => (Throw (JSError "Error" ("ENOENT: no such file or directory, stat '" ++ s ++ "'")), p)
        end
    | _ => (Throw (JSError "TypeError" "The path argument must be of type string"), p)
    end.

Definition isDirectory (k : FileKind) : bool :=
  match k with Directory => true | RegularFile => false end.

(** [fn.bind(this)]: a new function object. *)
Definition bind_function : M t FunctionRef :=
  fun p =>
    (Normal (BoundFunction (next_oid p)),
     {| cwd := cwd p; volume := volume p;
        unhandledRejection := unhandledRejection p;
        next_oid := S (next_oid p) |}).

(** [process.on('unhandledRejection', f)]: appended, never deduplicated. *)
Definition on_unhandledRejection (f : FunctionRef) : M t unit :=
  fun p =>
    (Normal tt,
     {| cwd := cwd p; volume := volume p;
        unhandledRejection := unhandledRejection p ++ [f];
        next_oid := next_oid p |}).

End Process.

Module Egg.

Import ReadyCallback.

Inductive Level : Type := INFO | WARN | ERROR.

(** One call of a logger method: the first argument and the rest. *)
Record LogRecord : Type := {
  level : Level;
  message : JSValue;
  args : list JSValue
}.

(** A logger is the sequence of calls it has received. *)
Definition Logger : Type := list LogRecord.

Record Loggers : Type := { logger_ : Logger; coreLogger_ : Logger }.

(** The result of [require('depd')('egg')]. *)
Inductive Depd : Type := depd (namespace : string).

(** The arrow functions [_initReady] subscribes. *)
Inductive Listener : Type :=
| log_ready_stat
| log_ready_timeout.

(** The loader class a subclass supplies under [Symbol.for('egg#loader')].
    The loader is handed [baseDir], [plugins], the instance ([app: this]) and
    its console ([logger: this.console]).  It may log to that console:
    [loader_console] is the sequence of calls the console has received from
    it.  It is taken not to subscribe to the instance's events nor to assign
    the instance's properties.  [loader.config] may still be undefined. *)
Class LoaderClass : Type := {
  LoaderT : Type;
  Config : Type;
  Plugins : Type;
  (* [new Loader({ baseDir, app, plugins, logger })] *)
  new_Loader : JSValue -> JSValue -> LoaderT;
  loadConfig : M LoaderT unit;
  loader_console : LoaderT -> Logger;
  loader_plugins : LoaderT -> Plugins;
  loader_config : LoaderT -> option Config;
  config_name : Config -> JSValue
}.

Section EggApplication.

Context {LC : LoaderClass}.

Record EggApplication : Type := {
  _options : Options.t;
  console : Logger;
  loader : LoaderT;
  (* EventEmitter subscriptions, in subscription order *)
  events : list (string * Listener);
  (* what ready-callback mixes in; absent before [_initReady] *)
  barrier : option Barrier;
  _unhandledRejectionHandler_ref : Process.FunctionRef;
  DEPRECATE : option Depd;
  LOGGERS : option Loggers
}.

Definition set_console (a : EggApplication) (c : Logger) : EggApplication :=
  {| _options := _options a; console := c; loader := loader a;
     events := events a; barrier := barrier a;
     _unhandledRejectionHandler_ref := _unhandledRejectionHandler_ref a;
     DEPRECATE := DEPRECATE a; LOGGERS := LOGGERS a |}.

Definition set_loader (a : EggApplication) (l : LoaderT) : EggApplication :=
  {| _options := _options a; console := console a; loader := l;
     events := events a; barrier := barrier a;
     _unhandledRejectionHandler_ref := _unhandledRejectionHandler_ref a;
     DEPRECATE := DEPRECATE a; LOGGERS := LOGGERS a |}.

Definition set_events (a : EggApplication) (e : list (string * Listener))
  : EggApplication :=
  {| _options := _options a; console := console a; loader := loader a;
     events := e; barrier := barrier a;
     _unhandledRejectionHandler_ref := _unhandledRejectionHandler_ref a;
     DEPRECATE := DEPRECATE a; LOGGERS := LOGGERS a |}.

Definition set_barrier (a : EggApplication) (b : option Barrier)
  : EggApplication :=
  {| _options := _options a; console := console a; loader := loader a;
     events := events a; barrier := b;
     _unhandledRejectionHandler_ref := _unhandledRejectionHandler_ref a;
     DEPRECATE := DEPRECATE a; LOGGERS := LOGGERS a |}.

Definition set_handler_ref (a : EggApplication) (f : Process.FunctionRef)
  : EggApplication :=
  {| _options := _options a; console := console a; loader := loader a;
     events := events a; barrier := barrier a;
     _unhandledRejectionHandler_ref := f;
     DEPRECATE := DEPRECATE a; LOGGERS := LOGGERS a |}.

Definition set_DEPRECATE (a : EggApplication) (d : option Depd)
  : EggApplication :=
  {| _options := _options a; console := console a; loader := loader a;
     events := events a; barrier := barrier a;
     _unhandledRejectionHandler_ref := _unhandledRejectionHandler_ref a;
     DEPRECATE := d; LOGGERS := LOGGERS a |}.

Definition set_LOGGERS (a : EggApplication) (l : option Loggers)
  : EggApplication :=
  {| _options := _options a; console := console a; loader := loader a;
     events := events a; barrier := barrier a;
     _unhandledRejectionHandler_ref := _unhandledRejectionHandler_ref a;
     DEPRECATE := DEPRECATE a; LOGGERS := l |}.

(** *** Loggers *)

Definition log (lv : Level) (msg : JSValue) (rest : list JSValue)
               (l : Logger) : Logger :=
  (l ++ [{| level := lv; message := msg; args := rest |}])%list.

(** [this.console.info(fmt, ...)] and [this.console.warn(fmt, ...)] *)
Definition console_info (fmt : string) (rest : list JSValue)
  : M EggApplication unit :=
  modify (fun a => set_console a (log INFO (JSString fmt) rest (console a))).

Definition console_warn (fmt : string) (rest : list JSValue)
  : M EggApplication unit :=
  modify (fun a => set_console a (log WARN (JSString fmt) rest (console a))).

(** Modelled from the spec: [createLoggers] lives in [./utils/logger],
    which is not among the files.  Section 6 gives a logger the methods
    [info], [warn] and [error]; a new logger set has received no call. *)
Definition createLoggers (a : EggApplication) : Loggers :=
  {| logger_ := []; coreLogger_ := [] |}.

(** *** Getters *)

Definition type (a : EggApplication) : JSValue := Options.type (_options a).

Definition baseDir (a : EggApplication) : JSValue :=
  Options.baseDir (_options a).

Definition deprecate : M EggApplication Depd :=
  fun a =>
    match DEPRECATE a with
    | Some d => (Normal d, a)
    | None => (Normal (depd "egg"), set_DEPRECATE a (Some (depd "egg")))
    end.

Definition plugins (a : EggApplication) : Plugins := loader_plugins (loader a).

(** [this.loader.config], [None] when the loader has none. *)
Definition config (a : EggApplication) : option Config :=
  loader_config (loader a).

(** [this.config.name]: reading a property of [undefined] raises. *)
Definition name : M EggApplication JSValue :=
  fun a =>
    match config a with
    | Some c => (Normal (config_name c), a)
    | None =>
        (Throw (TypeError "Cannot read properties of undefined (reading 'name')"),
         a)
    end.

Definition loggers : M EggApplication Loggers :=
  fun a =>
    match LOGGERS a with
    | Some l => (Normal l, a)
    | None => let l := createLoggers a in (Normal l, set_LOGGERS a (Some l))
    end.

Definition logger : M EggApplication Logger :=
  l <- loggers ;; ret (logger_ l).

Definition coreLogger : M EggApplication Logger :=
  l <- loggers ;; ret (coreLogger_ l).

(** [this.coreLogger.error(err)]: the getter runs, then the call lands in
    the cached logger set. *)
Definition coreLogger_error (err : JSValue) : M EggApplication unit :=
  _ <- coreLogger ;;
  modify (fun a =>
    match LOGGERS a with
    | Some l =>
        set_LOGGERS a
          (Some {| logger_ := logger_ l;
                   coreLogger_ := log ERROR err [] (coreLogger_ l) |})
    | None => a
    end).

(** *** [_initReady] *)

(** [data.id], [data.remain] and the [id] argument of the listeners. *)
Definition data_id (e : Event) : JSValue :=
  match e with ready_stat d _ => id_value d | _ => JSUndefined end.

Definition data_remain (e : Event) : JSValue :=
  match e with
  | ready_stat _ r => JSArray (map id_value r)
  | _ => JSUndefined
  end.

Definition timeout_id (e : Event) : JSValue :=
  match e with ready_timeout t => id_value t | _ => JSUndefined end.

Definition run_listener (f : Listener) (e : Event) : M EggApplication unit :=
  match f with
  | log_ready_stat =>
      console_info "[egg:core:ready_stat] end ready task %s, remain %j"
                   [data_id e; data_remain e]
  | log_ready_timeout =>
      console_warn
        "[egg:core:ready_timeout] 10 seconds later %s was still unable to finish."
        [timeout_id e]
  end.

(** [this.on(name, f)] *)
Definition on (name : string) (f : Listener) : M EggApplication unit :=
  modify (fun a => set_events a (events a ++ [(name, f)])).

(** [this.emit(...)]: the listeners of the event run in subscription
    order. *)
Definition emit (e : Event) : M EggApplication unit :=
  fun a =>
    forEach (filter (fun s => String.eqb (fst s) (event_name e)) (events a))
            (fun s => run_listener (snd s) e) a.

(** Modelled from the spec: [mixin(this)] of the missing barrier package;
    the instance owns the barrier (section 4.3). *)
Definition mixin (b : Barrier) : M EggApplication unit :=
  modify (fun a => set_barrier a (Some b)).

Definition _initReady : M EggApplication unit :=
  mixin (create (Some {| timeout := 10000 |})) ;;;
  on "ready_stat" log_ready_stat ;;;
  on "ready_timeout" log_ready_timeout.

(** Modelled from the spec: the wiring the missing mixin provides (section
    2): the barrier acts on the instance and its events are emitted on the
    instance, where the subscriptions of [_initReady] hear them. *)
Definition barrier_step (o : Op) (a : EggApplication)
  : EggApplication * list Event :=
  match barrier a with
  | None => (a, [])
  | Some b =>
      let (b', evs) := step o b in
      (snd (forEach evs emit (set_barrier a (Some b'))), evs)
  end.

Fixpoint barrier_run (ops : list Op) (a : EggApplication)
  : EggApplication * list Event :=
  match ops with
  | [] => (a, [])
  | o :: rest =>
      let (a1, evs1) := barrier_step o a in
      let (a2, evs2) := barrier_run rest a1 in
      (a2, (evs1 ++ evs2)%list)
  end.

(** *** [_unhandledRejectionHandler] *)

(** [new Error(message)] *)
Definition new_Error (msg : string) : JSValue := JSError "Error" msg.

(** [err.name] *)
Definition error_name (err : JSValue) : JSValue :=
  match err with
  | JSError n _ | JSFrozenError n _ => JSString n
  | _ => JSUndefined
  end.

(** [err.name = n] in strict mode: a frozen object refuses the write with a
    [TypeError]. *)
Definition set_error_name (err : JSValue) (n : string) : Completion JSValue :=
  match err with
  | JSError _ m => Normal (JSError n m)
  | JSFrozenError _ _ =>
      Throw (TypeError "Cannot assign to read only property 'name' of object")
  | _ => Normal err
  end.

Definition _unhandledRejectionHandler (err : JSValue) : M EggApplication unit :=
  err <- (if negb (instanceof_Error err)
          then message <- lift (js_String err) ;; ret (new_Error message)
          else ret err) ;;
  err <- (if strict_eq_string (error_name err) "Error"
          then lift (set_error_name err "unhandledRejectionError")
          else ret err) ;;
  coreLogger_error err.

(** *** The constructor *)

(** Run a method of the object under construction. *)
Definition on_this {A} (this : EggApplication) (m : M EggApplication A)
  : M Process.t (A * EggApplication) :=
  fun p =>
    match m this with
    | (Normal a, this') => (Normal (a, this'), p)
    | (Throw e, _) => (Throw e, p)
    end.

(** Lines 22 to 29: defaulting and the four assertions.  Returns the
    options object as the rest of the constructor sees it. *)
Definition check_options (options : option Options.t) : M Process.t Options.t :=
  let options := Options.or_empty options in
  cwd <- Process.process_cwd ;;
  let options :=
    Options.set_baseDir options (js_or (Options.baseDir options) (JSString cwd)) in
  assert (is_string (Options.baseDir options))
         "options.baseDir required, and must be a string" ;;;
  found <- Process.existsSync (Options.baseDir options) ;;
  shown <- lift (js_String (Options.baseDir options)) ;;
  assert found ("Directory " ++ shown ++ " not exists") ;;;
  stat <- Process.statSync (Options.baseDir options) ;;
  shown <- lift (js_String (Options.baseDir options)) ;;
  assert (Process.isDirectory stat)
         ("Directory " ++ shown ++ " is not a directory") ;;;
  assert (strict_eq_string (Options.type options) "application"
          || strict_eq_string (Options.type options) "agent")
         "options.type should be application or agent" ;;;
  ret options.

(** The value line 23 leaves in [options.baseDir]. *)
Definition validated_baseDir (options : option Options.t) (p : Process.t)
  : JSValue :=
  js_or (Options.baseDir (Options.or_empty options)) (JSString (Process.cwd p)).

(** There is a directory at [v]. *)
Definition is_directory_on (p : Process.t) (v : JSValue) : bool :=
  match v with
  | JSString s =>
      match Process.fs p s with
      | Some Process.Directory => true
      | _ => false
      end
  | _ => false
  end.

(** [type] is one of the two context kinds. *)
Definition type_accepted (o : Options.t) : bool :=
  strict_eq_string (Options.type o) "application"
  || strict_eq_string (Options.type o) "agent".

(** [this] once lines 37 to 55 have assigned [_options], [console] and
    [loader]: the console, new at line 43, has received the calls of the
    loader it was handed to and no other, nothing is subscribed, and the
    handler is still the method of the prototype. *)
Definition assigned (options : Options.t) (l : LoaderT) : EggApplication :=
  {| _options := options;
     console := loader_console l;
     loader := l;
     events := [];
     barrier := None;
     _unhandledRejectionHandler_ref := Process.PrototypeMethod;
     DEPRECATE := None;
     LOGGERS := None |}.

Definition constructor (options : option Options.t) : M Process.t EggApplication :=
  options <- check_options options ;;
  (* super() *)
  let this :=
    assigned options
             (new_Loader (Options.baseDir options) (Options.plugins options)) in
  r <- (fun p => match loadConfig (loader this) with
                 | (Normal _, l) =>
                     (Normal (set_console (set_loader this l) (loader_console l)),
                      p)
                 | (Throw e, _) => (Throw e, p)
                 end) ;;
  r <- on_this r _initReady ;;
  let this := snd r in
  f <- Process.bind_function ;;
  let this := set_handler_ref this f in
  Process.on_unhandledRejection (_unhandledRejectionHandler_ref this) ;;;
  ret this.

(** *** Everything the class defines, as one call interface *)

Inductive Member : Type :=
| get_type
| get_baseDir
| get_deprecate
| get_name
| get_plugins
| get_config
| get_loggers
| get_logger
| get_coreLogger
| call__initReady
| call__unhandledRejectionHandler (err : JSValue).

(** The effect of using a member on an instance; the value it yields is
    dropped. *)
Definition member_effect (m : Member) : M EggApplication unit :=
  match m with
  | get_type => a <- get ;; let _ := type a in ret tt
  | get_baseDir => a <- get ;; let _ := baseDir a in ret tt
  | get_deprecate => deprecate ;;; ret tt
  | get_name => name ;;; ret tt
  | get_plugins => a <- get ;; let _ := plugins a in ret tt
  | get_config => a <- get ;; let _ := config a in ret tt
  | get_loggers => loggers ;;; ret tt
  | get_logger => logger ;;; ret tt
  | get_coreLogger => coreLogger ;;; ret tt
  | call__initReady => _initReady
  | call__unhandledRejectionHandler err => _unhandledRejectionHandler err
  end.

(** A member used on an instance living in a process. *)
Definition invoke (m : Member) : M (EggApplication * Process.t) unit :=
  fun s =>
    let (r, a) := member_effect m (fst s) in
    (r, (a, snd s)).


(** How many [ready] events the instance may still hear. *)
Definition app_budget (a : EggApplication) : nat :=
  match barrier a with Some b => budget b | None => 0 end.

End EggApplication.

End Egg.

(* ================================================================= *)
(** ** Concrete inputs *)

Module Examples.

Import EggLoader.

(** Hooks that note their own name in the context. *)
Definition visit (who : string) : Hook (list string) :=
  fun c => (Normal tt, (c ++ [who])%list).

Definition crash (who : string) : Hook (list string) :=
  fun c => (Throw (JSError "Error" ("boom in " ++ who)), (c ++ [who])%list).

Definition slash_join (a b : string) : string := a ++ "/" ++ b.

(** Three units; the second has no [app.js], and its [agent.js] raises. *)
Definition three_units : list LoadUnit :=
  [ {| path := "plugins/one" |}; {| path := "plugins/two" |};
    {| path := "app" |} ].

Definition files (f : string) : option (Hook (list string)) :=
  if String.eqb f "plugins/one/app.js" then Some (visit "one")
  else if String.eqb f "app/app.js" then Some (visit "app")
  else if String.eqb f "plugins/one/agent.js" then Some (visit "one")
  else if String.eqb f "plugins/two/agent.js" then Some (crash "two")
  else if String.eqb f "app/agent.js" then Some (visit "app")
  else None.

Definition loader0 : Loader (list string) :=
  {| app := []; loadUnits := three_units; resolve := files;
     requested := []; hook_log := [] |}.

(** A loader class that keeps nothing and whose [loadConfig] succeeds. *)
#[local] Instance plain_loader : Egg.LoaderClass :=
  {| Egg.LoaderT := unit;
     Egg.Config := JSValue;
     Egg.Plugins := JSValue;
     Egg.new_Loader := fun _ _ => tt;
     Egg.loadConfig := ret tt;
     Egg.loader_console := fun _ => [];
     Egg.loader_plugins := fun _ => JSObject;
     Egg.loader_config := fun _ => Some JSObject;
     Egg.config_name := fun _ => JSString "demo" |}.

(** The number [7]. *)
Definition seven : SafeInteger := {| int_value := 7; int_safe := eq_refl |}.

(** A process started in [/srv/demo], with one regular file beside it. *)
Definition disk (p : string) : option Process.FileKind :=
  if String.eqb p "/srv/demo" then Some Process.Directory
  else if String.eqb p "/srv/demo/package.json" then Some Process.RegularFile
  else None.

Definition process0 : Process.t :=
  {| Process.cwd := "/srv/demo"; Process.volume := disk;
     Process.unhandledRejection := []; Process.next_oid := 0 |}.

(** An instance before [_initReady] has run. *)
Definition blank_app : Egg.EggApplication :=
  {| Egg._options := {| Options.baseDir := JSString "/srv/demo";
                        Options.type := JSString "application";
                        Options.plugins := JSUndefined |};
     Egg.console := [];
     Egg.loader := tt;
     Egg.events := [];
     Egg.barrier := None;
     Egg._unhandledRejectionHandler_ref := Process.PrototypeMethod;
     Egg.DEPRECATE := None;
     Egg.LOGGERS := None |}.

Definition app_options (dir : JSValue) : Options.t :=
  {| Options.baseDir := dir; Options.type := JSString "application";
     Options.plugins := JSUndefined |}.

(** What the constructor returns for [app_options dir] when [dir] passes the
    checks, the [n]-th function object being the bound handler. *)
Definition built (dir : JSValue) (n : nat) : Egg.EggApplication :=
  {| Egg._options := app_options dir;
     Egg.console := [];
     Egg.loader := tt;
     Egg.events := [("ready_stat", Egg.log_ready_stat);
                    ("ready_timeout", Egg.log_ready_timeout)];
     Egg.barrier :=
       Some (ReadyCallback.create (Some {| ReadyCallback.timeout := 10000 |}));
     Egg._unhandledRejectionHandler_ref := Process.BoundFunction n;
     Egg.DEPRECATE := None;
     Egg.LOGGERS := None |}.

(** [process0] after one and after two constructions. *)
Definition process1 : Process.t :=
  {| Process.cwd := "/srv/demo"; Process.volume := disk;
     Process.unhandledRejection := [Process.BoundFunction 0];
     Process.next_oid := 1 |}.

Definition process2 : Process.t :=
  {| Process.cwd := "/srv/demo"; Process.volume := disk;
     Process.unhandledRejection :=
       [Process.BoundFunction 0; Process.BoundFunction 1];
     Process.next_oid := 2 |}.

End Examples.

(* ================================================================= *)
(** ** Reference descriptions for further properties *)

Module Expected.

Section Loader.

Variable Ctx : Type.

(** The context after the hooks of the files [fs] have run one after the
    other, a file without hook leaving it as it is. *)
Definition threaded (l : EggLoader.Loader Ctx) (fs : list string) (c : Ctx) : Ctx :=
  fold_left
    (fun c f => match EggLoader.resolve l f with
                | Some h => snd (h c)
                | None => c
                end)
    fs c.

End Loader.

Section Egg.

Import ReadyCallback Egg.

Context {LC : LoaderClass}.


(** The console call one event leads to on a constructed instance. *)
Definition log_line (e : Event) : list LogRecord :=
  match e with
  | ready_stat d r =>
      [{| level := INFO;
          message := JSString "[egg:core:ready_stat] end ready task %s, remain %j";
          args := [id_value d; JSArray (map id_value r)] |}]
  | ready_timeout t =>
      [{| level := WARN;
          message :=
            JSString
              "[egg:core:ready_timeout] 10 seconds later %s was still unable to finish.";
          args := [id_value t] |}]
  | ready => []
  end.

(** The same process started in another working directory. *)
Definition set_cwd (p : Process.t) (d : string) : Process.t :=
  {| Process.cwd := d; Process.volume := Process.volume p;
     Process.unhandledRejection := Process.unhandledRejection p;
     Process.next_oid := Process.next_oid p |}.

(** No function object is installed twice, and every bound function
    installed was created before the next one to be created. *)
Definition handlers_fresh (p : Process.t) : Prop :=
  NoDup (Process.unhandledRejection p)
  /\ forall n, In (Process.BoundFunction n) (Process.unhandledRejection p) ->
               n < Process.next_oid p.

(** The logger set in use: the cached one, or the one the getter is about
    to create. *)
Definition current_loggers (a : EggApplication) : Loggers :=
  match LOGGERS a with
  | Some l => l
  | None => createLoggers a
  end.

(** A call of [error] with the single argument [e]. *)
Definition error_record (e : JSValue) : LogRecord :=
  {| level := ERROR; message := e; args := [] |}.

(** One unhandled rejection after the other reaching the handler. *)
Definition handle_all (vs : list JSValue) : M EggApplication unit :=
  forEach vs _unhandledRejectionHandler.

(** The rejections on which neither line 188 nor line 191 raises: a value
    that is not an [Error] must have a string form, and a frozen [Error]
    must not be named ['Error']. *)
Definition loggable (v : JSValue) : bool :=
  match v with
  | JSError _ _ => true
  | JSFrozenError n _ => negb (String.eqb n "Error")
  | _ => match js_String v with
         | Normal _ => true
         | Throw _ => false
         end
  end.

(** What [v] is logged as, judged on the logged value [e]. *)
Definition logged_as (v e : JSValue) : Prop :=
  instanceof_Error e = true
  /\ error_name e <> JSString "Error"
  /\ (instanceof_Error v = false ->
      exists s, js_String v = Normal s
                /\ e = JSError "unhandledRejectionError" s)
  /\ (forall n m, v = JSError n m ->
      e = JSError (if String.eqb n "Error" then "unhandledRejectionError" else n) m)
  /\ (forall n m, v = JSFrozenError n m -> e = v).

End Egg.

(** A loader class whose [loadConfig] raises. *)
Definition config_error : JSValue := JSError "SyntaxError" "config/config.default.js".

#[local] Instance failing_loader : Egg.LoaderClass :=
  {| Egg.LoaderT := unit;
     Egg.Config := JSValue;
     Egg.Plugins := JSValue;
     Egg.new_Loader := fun _ _ => tt;
     Egg.loadConfig := throw config_error;
     Egg.loader_console := fun _ => [];
     Egg.loader_plugins := fun _ => JSObject;
     Egg.loader_config := fun _ => None;
     Egg.config_name := fun _ => JSUndefined |}.

End Expected.

(* ================================================================= *)
(** * Properties of the loader mixin *)

Section LoaderFacts.

Import EggLoader.

Variable Ctx : Type.
Variable path_join : string -> string -> string.

Let Loader := Loader Ctx.

Lemma forEach_map (S A B : Type) (f : A -> B) (g : B -> M S unit) (l : list A) :
  forEach (map f l) g = forEach l (fun x => g (f x)).
Proof.
  induction l as [|x xs IH]; simpl; [reflexivity|].
  now rewrite IH.
Qed.

(** What one [loadFile] call can do to the loader. *)
Lemma loadFile_frame (f : string) (l : Loader) :
  resolve (snd (loadFile f l)) = resolve l
  /\ loadUnits (snd (loadFile f l)) = loadUnits l
  /\ requested (snd (loadFile f l)) = (requested l ++ [f])%list.
Proof.
  unfold loadFile; simpl.
  destruct (resolve l f) as [h|]; simpl; [|auto].
  destruct (h (app l)) as [[u|e] c]; simpl; auto.
Qed.

Lemma loadFile_normal (f : string) (l l' : Loader) :
  loadFile f l = (Normal tt, l') ->
  hook_log l' = (hook_log l ++ bracket l f)%list.
Proof.
  unfold loadFile, bracket; simpl.
  destruct (resolve l f) as [h|]; simpl.
  - destruct (h (app l)) as [[u|e] c]; intros H; inversion H; subst; simpl.
    now rewrite <- app_assoc.
  - intros H; inversion H; subst; simpl. now rewrite app_nil_r.
Qed.

Lemma bracket_resolve (l l' : Loader) (f : string) :
  resolve l' = resolve l -> bracket l' f = bracket l f.
Proof. unfold bracket; intros ->; reflexivity. Qed.

(** A run over a list of files: the files asked for are a prefix of the
    list, the whole list when the run completes. *)
Lemma run_files_requested (fs : list string) (l : Loader) :
  resolve (snd (forEach fs (@loadFile Ctx) l)) = resolve l
  /\ loadUnits (snd (forEach fs (@loadFile Ctx) l)) = loadUnits l
  /\ exists n,
       n <= List.length fs
       /\ requested (snd (forEach fs (@loadFile Ctx) l))
          = (requested l ++ firstn n fs)%list
       /\ (forall u, fst (forEach fs (@loadFile Ctx) l) = Normal u ->
           n = List.length fs).
Proof.
  revert l; induction fs as [|f fs IH]; intros l; simpl.
  - repeat split; exists 0; simpl; rewrite app_nil_r; auto.
  - unfold bind.
    destruct (loadFile_frame f l) as (Hr & Hu & Hq).
    destruct (loadFile f l) as [[u|e] l1] eqn:E; simpl in *.
    + destruct (IH l1) as (Hr' & Hu' & n & Hn & Hq' & Hall).
      repeat split; try congruence.
      exists (S n); simpl; repeat split; [lia| |].
      * rewrite Hq', Hq, <- app_assoc; reflexivity.
      * intros v Hv. now rewrite (Hall v Hv).
    + repeat split; auto.
      exists 1; simpl; repeat split; [lia| |].
      * exact Hq.
      * intros v Hv; discriminate.
Qed.

(** A run that completes leaves every present hook bracketed, in list
    order. *)
Lemma run_files_normal (fs : list string) (l l' : Loader) :
  forEach fs (@loadFile Ctx) l = (Normal tt, l') ->
  hook_log l' = (hook_log l ++ flat_map (bracket l) fs)%list.
Proof.
  revert l; induction fs as [|f fs IH]; intros l; simpl.
  - unfold ret; intros H; inversion H; subst. now rewrite app_nil_r.
  - unfold bind.
    destruct (loadFile_frame f l) as (Hr & _).
    destruct (loadFile f l) as [[[]|e] l1] eqn:E; simpl in *; [|discriminate].
    intros H. rewrite (IH _ H), (@loadFile_normal _ _ _ E), <- app_assoc.
    f_equal. f_equal.
    apply flat_map_ext; intros a. now apply bracket_resolve.
Qed.

Lemma invoked_app (a b : list HookEvent) :
  invoked (a ++ b) = (invoked a ++ invoked b)%list.
Proof.
  induction a as [|[f|f] a IH]; simpl; [reflexivity| |assumption].
  now rewrite IH.
Qed.

Lemma invoked_brackets (l : Loader) (fs : list string) :
  invoked (flat_map (bracket l) fs) = present l fs.
Proof.
  induction fs as [|f fs IH]; simpl; [reflexivity|].
  rewrite invoked_app, IH. unfold bracket.
  destruct (resolve l f); reflexivity.
Qed.

(** A run over [pre ++ f :: post] whose [pre] part completes and whose
    hook for [f] raises stops there. *)
Lemma run_files_abort (pre post : list string) (f : string) (l l1 : Loader)
      (h : Hook Ctx) (e : JSValue) (c : Ctx) :
  forEach pre (@loadFile Ctx) l = (Normal tt, l1) ->
  resolve l f = Some h ->
  h (app l1) = (Throw e, c) ->
  forEach (pre ++ f :: post) (@loadFile Ctx) l
  = (Throw e, set_app (record_event (HookBegin f) (record_request f l1)) c).
Proof.
  revert l; induction pre as [|g pre IH]; intros l Hpre Hres Hh; simpl in *.
  - unfold ret in Hpre; inversion Hpre; subst l1.
    unfold bind, loadFile; simpl. rewrite Hres; simpl. now rewrite Hh.
  - unfold bind in *.
    destruct (loadFile_frame g l) as (Hr & _).
    destruct (loadFile g l) as [[[]|e'] l2] eqn:E; simpl in *; [|discriminate].
    apply IH; auto. congruence.
Qed.

Lemma loadCustom_scheme (k : Kind) :
  @loadCustom Ctx path_join k = load_named path_join (hook_filename k).
Proof. destruct k; reflexivity. Qed.

Lemma load_named_files (file : string) (l : Loader) :
  load_named path_join file l
  = forEach (map (fun u => path_join (path u) file) (loadUnits l))
            (@loadFile Ctx) l.
Proof.
  unfold load_named, bind, getLoadUnits; simpl.
  now rewrite forEach_map.
Qed.

(** A run completes when every hook met returns on the context the earlier
    hooks left. *)
Lemma run_files_complete (fs : list string) (l : Loader) :
  (forall i f h,
      nth_error fs i = Some f -> resolve l f = Some h ->
      fst (h (Expected.threaded l (firstn i fs) (app l))) = Normal tt) ->
  exists l', forEach fs (@loadFile Ctx) l = (Normal tt, l').
Proof.
  revert l; induction fs as [|f fs IH]; intros l H; simpl.
  - eexists; reflexivity.
  - unfold bind.
    assert (Hstep : exists l1,
               loadFile f l = (Normal tt, l1)
               /\ resolve l1 = resolve l
               /\ app l1 = Expected.threaded l [f] (app l)).
    { unfold loadFile, Expected.threaded; simpl.
      destruct (resolve l f) as [h|] eqn:R.
      - pose proof (H 0 f h eq_refl R) as H0. simpl in H0.
        destruct (h (app l)) as [[[]|e] c]; simpl in H0; [|discriminate].
        eexists; repeat split.
      - eexists; repeat split. }
    destruct Hstep as (l1 & -> & Hr & Ha).
    apply IH. intros i g h Hn Hres.
    rewrite Hr in Hres. specialize (H (S i) g h Hn Hres).
    unfold Expected.threaded in *. simpl in H, Ha.
    rewrite Hr, Ha. exact H.
Qed.

(** C1.  For whatever unit sequence [getLoadUnits()] returns, a load
    ([loadCustomApp] or [loadCustomAgent]) in which every hook returns, on
    the context the hooks of the earlier units left, completes; and a load
    that completes has invoked the hooks of the units in exactly that order:
    the log gains, unit by unit, the begin of the unit's hook directly
    followed by its return, so a hook begins only after the previous one has
    returned, and the hooks entered are the existing hook files in unit
    order, nothing moved. *)
Theorem loadCustom_follows_unit_order (k : Kind) (l : Loader) :
  ((forall i f h,
       nth_error (map (hook_path path_join k) (loadUnits l)) i = Some f ->
       resolve l f = Some h ->
       fst (h (Expected.threaded
                 l (firstn i (map (hook_path path_join k) (loadUnits l)))
                 (app l)))
       = Normal tt) ->
   exists l', loadCustom path_join k l = (Normal tt, l'))
  /\ (forall l',
        loadCustom path_join k l = (Normal tt, l') ->
        hook_log l'
        = (hook_log l
           ++ flat_map (bracket l) (map (hook_path path_join k) (loadUnits l)))%list
        /\ invoked (hook_log l')
           = (invoked (hook_log l)
              ++ present l (map (hook_path path_join k) (loadUnits l)))%list).
Proof.
  rewrite loadCustom_scheme, load_named_files. split.
  - intros H. now apply run_files_complete.
  - intros l' H. apply run_files_normal in H.
    split; [exact H|].
    rewrite H, invoked_app, invoked_brackets. reflexivity.
Qed.

(** C2.  Let the units be [pre ++ u :: post].  If the hooks of [pre] run to
    completion and the hook of [u] then raises [e], the load raises [e] to
    its caller, and the log ends with the begin of [u]'s hook: no hook of
    [post] is invoked. *)
Theorem loadCustom_fails_fast (k : Kind) (l l1 : Loader)
        (pre post : list LoadUnit) (u : LoadUnit)
        (h : Hook Ctx) (e : JSValue) (c : Ctx) :
  loadUnits l = (pre ++ u :: post)%list ->
  loadCustom path_join k (set_loadUnits l pre) = (Normal tt, l1) ->
  resolve l (hook_path path_join k u) = Some h ->
  h (app l1) = (Throw e, c) ->
  exists l',
    loadCustom path_join k l = (Throw e, l')
    /\ app l' = c
    /\ hook_log l'
       = (hook_log l
          ++ flat_map (bracket l) (map (hook_path path_join k) pre)
          ++ [HookBegin (hook_path path_join k u)])%list
    /\ requested l'
       = (requested l
          ++ map (hook_path path_join k) pre
          ++ [hook_path path_join k u])%list.
Proof.
  intros Hu Hpre Hres Hh.
  rewrite loadCustom_scheme, load_named_files in Hpre |- *.
  simpl in Hpre. rewrite Hu, map_app; simpl.
  assert (Hrun : forEach (map (fun x => path_join (path x) (hook_filename k)) pre)
                         (@loadFile Ctx) l
                 = (Normal tt, set_loadUnits l1 (loadUnits l))).
  { clear Hres Hh Hu.
    remember (map (fun x => path_join (path x) (hook_filename k)) pre) as fs.
    clear Heqfs. revert l l1 Hpre.
    induction fs as [|f fs IH]; intros l l1; simpl.
    - unfold ret; intros H; inversion H; subst. destruct l; reflexivity.
    - unfold bind.
      assert (E : loadFile f (set_loadUnits l pre)
                  = (fst (loadFile f l), set_loadUnits (snd (loadFile f l)) pre)).
      { unfold loadFile; simpl. destruct (resolve l f) as [g|]; simpl; auto.
        destruct (g (app l)) as [[[]|e'] c']; reflexivity. }
      rewrite E. destruct (loadFile_frame f l) as (_ & Hlu & _).
      destruct (loadFile f l) as [[[]|e'] l2]; simpl in *; [|discriminate].
      intros H. rewrite <- Hlu. apply IH. exact H. }
  pose proof (run_files_normal _ _ Hrun) as Hlog.
  destruct (run_files_requested
              (map (fun x => path_join (path x) (hook_filename k)) pre) l)
    as (_ & _ & n & _ & Hreq & Hn).
  rewrite Hrun in Hreq, Hn; simpl in Hreq, Hn.
  rewrite (Hn tt eq_refl), firstn_all in Hreq.
  eexists; split.
  - eapply run_files_abort; [exact Hrun | exact Hres | exact Hh].
  - simpl in *. unfold hook_path.
    rewrite Hlog, Hreq, <- !app_assoc. auto.
Qed.

(** C9.  [loadCustomApp] is the common scheme at ['app.js'] and
    [loadCustomAgent] the same scheme at ['agent.js']; a load asks
    [loadFile] for exactly one file per unit, [path.join(unit.path, name)]
    with the name of its kind, in unit order (all units when it completes,
    the units up to the raising one otherwise). *)
Theorem loadCustom_one_file_per_unit (l : Loader) :
  @loadCustomApp Ctx path_join = load_named path_join "app.js"
  /\ @loadCustomAgent Ctx path_join = load_named path_join "agent.js"
  /\ forall k : Kind,
       exists n,
         n <= List.length (loadUnits l)
         /\ requested (snd (loadCustom path_join k l))
            = (requested l
               ++ firstn n (map (fun u => path_join (path u) (hook_filename k))
                                (loadUnits l)))%list
         /\ (forall r, fst (loadCustom path_join k l) = Normal r ->
             n = List.length (loadUnits l)).
Proof.
  split; [reflexivity|split; [reflexivity|]].
  intros k. rewrite loadCustom_scheme, load_named_files.
  destruct (run_files_requested
              (map (fun u => path_join (path u) (hook_filename k)) (loadUnits l)) l)
    as (_ & _ & n & Hle & Hreq & Hn).
  rewrite length_map in Hle, Hn.
  exists n; auto.
Qed.

End LoaderFacts.

Lemma loadCustom_follows_unit_order_witness :
  exists l',
    EggLoader.loadCustom Examples.slash_join EggLoader.app_kind Examples.loader0
    = (Normal tt, l')
    /\ EggLoader.invoked (EggLoader.hook_log l')
       = ["plugins/one/app.js"; "app/app.js"].
Proof.
  destruct (@loadCustom_follows_unit_order _ Examples.slash_join
              EggLoader.app_kind Examples.loader0) as [Hruns Horder].
  destruct Hruns as [l' Hrun].
  - intros i f h Hn Hr.
    destruct i as [|[|[|i]]]; simpl in Hn.
    + inversion Hn; subst f. vm_compute in Hr. inversion Hr; subst h. reflexivity.
    + inversion Hn; subst f. vm_compute in Hr. discriminate Hr.
    + inversion Hn; subst f. vm_compute in Hr. inversion Hr; subst h. reflexivity.
    + destruct i; discriminate Hn.
  - exists l'. split; [exact Hrun|].
    destruct (Horder l' Hrun) as [_ H]. rewrite H. reflexivity.
Defined.

Lemma loadCustom_fails_fast_witness :
  exists l',
    EggLoader.loadCustom Examples.slash_join EggLoader.agent_kind Examples.loader0
    = (Throw (JSError "Error" "boom in two"), l')
    /\ EggLoader.invoked (EggLoader.hook_log l')
       = ["plugins/one/agent.js"; "plugins/two/agent.js"].
Proof.
  destruct (@loadCustom_fails_fast _ Examples.slash_join EggLoader.agent_kind
              Examples.loader0
              (snd (EggLoader.loadCustom Examples.slash_join EggLoader.agent_kind
                      (EggLoader.set_loadUnits Examples.loader0
                         [ {| EggLoader.path := "plugins/one" |} ])))
              [ {| EggLoader.path := "plugins/one" |} ]
              [ {| EggLoader.path := "app" |} ]
              {| EggLoader.path := "plugins/two" |}
              (Examples.crash "two")
              (JSError "Error" "boom in two")
              ["one"; "two"]
              eq_refl eq_refl eq_refl eq_refl)
    as (l' & Hrun & _ & Hlog & _).
  exists l'. split; [exact Hrun|].
  rewrite Hlog. reflexivity.
Defined.

(* ================================================================= *)
(** * Properties of the readiness barrier *)

Section BarrierFacts.

Import ReadyCallback.

Lemma count_ready_app (x y : list Event) :
  count_ready (x ++ y) = count_ready x + count_ready y.
Proof. unfold count_ready. now rewrite filter_app, length_app. Qed.

Lemma count_ready_timeouts (late : list TaskId) :
  count_ready (map ready_timeout late) = 0.
Proof. induction late; simpl; auto. Qed.

Lemma fire_if_ready_budget (b : Barrier) :
  count_ready (snd (fire_if_ready b)) + budget (fst (fire_if_ready b))
  <= budget b.
Proof.
  unfold fire_if_ready, reaches_ready, budget.
  destruct (pending b); destruct (loaded b); destruct (fired b) eqn:E; simpl;
    rewrite ?E; lia.
Qed.

Lemma step_budget (o : Op) (b : Barrier) :
  count_ready (snd (step o b)) + budget (fst (step o b)) <= budget b.
Proof.
  destruct o as [given|t| |d]; simpl.
  - unfold register, budget.
    destruct (is_pending b _); simpl; destruct (fired b); simpl; lia.
  - unfold complete. destruct (is_pending b t); simpl; [|lia].
    match goal with |- context [fire_if_ready ?x] =>
      pose proof (fire_if_ready_budget x) as H;
      destruct (fire_if_ready x) as [b2 evs] end.
    simpl in *. unfold count_ready in *; simpl. exact H.
  - unfold load_finished.
    match goal with |- context [fire_if_ready ?x] =>
      pose proof (fire_if_ready_budget x) as H end.
    exact H.
  - rewrite count_ready_timeouts. unfold budget; simpl.
    destruct (fired b); lia.
Qed.

Lemma TaskId_eqb_eq (x y : TaskId) : TaskId_eqb x y = true <-> x = y.
Proof.
  destruct x, y; simpl; split; intros H; try discriminate; try congruence.
  - apply String.eqb_eq in H; congruence.
  - inversion H; apply String.eqb_refl.
  - apply Nat.eqb_eq in H; congruence.
  - inversion H; apply Nat.eqb_refl.
Qed.

Lemma is_pending_In (b : Barrier) (t : TaskId) :
  is_pending b t = true <-> In t (map id (pending b)).
Proof.
  unfold is_pending. rewrite existsb_exists, in_map_iff.
  split; intros (k & H1 & H2).
  - exists k; split; [|assumption]. now apply TaskId_eqb_eq.
  - exists k; split; [assumption|]. now apply TaskId_eqb_eq.
Qed.

(** Disarming timers keeps the remaining ids distinct. *)
Lemma disarm_keeps_distinct (keep : Watchdog -> bool) (ws : list Watchdog) :
  NoDup (map wd_id ws) -> NoDup (map wd_id (filter keep ws)).
Proof.
  intros Hd; induction ws as [|w ws IH]; simpl in *; [exact Hd|].
  apply NoDup_cons_iff in Hd as [Hfresh Hd].
  destruct (keep w); simpl; [|now apply IH].
  apply NoDup_cons; [|now apply IH].
  rewrite in_map_iff. intros (w' & Hid & Hin).
  apply filter_In in Hin as [Hin _].
  apply Hfresh. rewrite <- Hid. now apply in_map.
Qed.

(** Two armed timers with the same id are the same timer. *)
Lemma timer_of_id_unique (ws : list Watchdog) (w w' : Watchdog) :
  NoDup (map wd_id ws) -> In w ws -> In w' ws -> wd_id w = wd_id w' -> w = w'.
Proof.
  intros Hd; induction ws as [|z zs IH]; simpl; [intros []|].
  apply NoDup_cons_iff in Hd as [Hfresh Hd].
  intros [->|Hw] [->|Hw'] E; auto.
  - exfalso; apply Hfresh. rewrite E. now apply in_map.
  - exfalso; apply Hfresh. rewrite <- E. now apply in_map.
Qed.

Lemma mark_timed_out_id (late : list TaskId) (k : Task) :
  id (mark_timed_out late k) = id k.
Proof. unfold mark_timed_out. destruct (existsb _ late); reflexivity. Qed.

Lemma fire_if_ready_frame (b : Barrier) :
  opt (fst (fire_if_ready b)) = opt b
  /\ pending (fst (fire_if_ready b)) = pending b
  /\ watchdogs (fst (fire_if_ready b)) = watchdogs b
  /\ now (fst (fire_if_ready b)) = now b.
Proof. unfold fire_if_ready. destruct (reaches_ready b); simpl; auto. Qed.

Lemma timers_ok_frame (b b' : Barrier) :
  pending b' = pending b -> watchdogs b' = watchdogs b ->
  timers_ok b -> timers_ok b'.
Proof.
  unfold timers_ok, is_pending. intros -> ->. auto.
Qed.

Lemma step_timers_ok (o : Op) (b : Barrier) :
  timers_ok b -> timers_ok (fst (step o b)).
Proof.
  intros [Hd Hp]. destruct o as [given|t| |d]; simpl.
  - unfold register.
    destruct (is_pending b _) eqn:E; simpl; [split; assumption|].
    split; simpl.
    + rewrite map_app; simpl.
      apply NoDup_app; repeat split; auto.
      * constructor; [intros []|constructor].
      * intros x Hx [<-|[]].
        apply in_map_iff in Hx as (w & Hw & Hin).
        apply Hp in Hin. rewrite Hw in Hin. congruence.
    + intros w Hin. apply is_pending_In; simpl. rewrite map_app.
      apply in_app_iff. apply in_app_iff in Hin as [Hin|[<-|[]]].
      * left. apply is_pending_In. auto.
      * right; simpl; auto.
  - unfold complete. destruct (is_pending b t) eqn:E; simpl; [|split; assumption].
    match goal with |- context [fire_if_ready ?x] =>
      remember x as b1 eqn:Eb1;
      destruct (fire_if_ready_frame b1) as (_ & Hpe & Hw & _);
      destruct (fire_if_ready b1) as [b2 evs] end.
    simpl in Hpe, Hw |- *. apply (@timers_ok_frame b1 b2 Hpe Hw).
    subst b1. split; simpl.
    + now apply disarm_keeps_distinct.
    + intros w Hin. apply filter_In in Hin as [Hin Hne].
      apply is_pending_In; simpl.
      specialize (Hp w Hin). apply is_pending_In in Hp.
      apply in_map_iff in Hp as (k & Hk & Hkin).
      apply in_map_iff. exists k; split; [assumption|].
      apply filter_In; split; [assumption|]. now rewrite Hk.
  - unfold load_finished.
    match goal with |- context [fire_if_ready ?x] =>
      remember x as b1 eqn:Eb1;
      destruct (fire_if_ready_frame b1) as (_ & Hpe & Hw & _) end.
    apply (@timers_ok_frame b1 _ Hpe Hw).
    subst b1. split; assumption.
  - split; simpl.
    + now apply disarm_keeps_distinct.
    + intros w Hin. apply filter_In in Hin as [Hin _].
      apply is_pending_In; simpl. rewrite map_map.
      specialize (Hp w Hin). apply is_pending_In in Hp.
      erewrite map_ext; [exact Hp|].
      intros k; apply mark_timed_out_id.
Qed.

Lemma disarm_keeps_delay (n : N) (keep : Watchdog -> bool) (ws : list Watchdog) :
  Forall (fun w => wd_delay w = n) ws ->
  Forall (fun w => wd_delay w = n) (filter keep ws).
Proof.
  rewrite !Forall_forall. intros H w Hw.
  apply filter_In in Hw as [Hw _]. auto.
Qed.

Lemma step_delay_is (n : N) (o : Op) (b : Barrier) :
  delay_is n b -> delay_is n (fst (step o b)).
Proof.
  intros [Ht Hw]. destruct o as [given|t| |d]; simpl.
  - unfold register.
    destruct (is_pending b _); simpl; [split; assumption|].
    split; simpl; [assumption|].
    apply Forall_app; split; [assumption|]. constructor; [exact Ht|constructor].
  - unfold complete. destruct (is_pending b t); simpl; [|split; assumption].
    match goal with |- context [fire_if_ready ?x] =>
      destruct (fire_if_ready_frame x) as (Ho & _ & Hwd & _);
      destruct (fire_if_ready x) as [b2 evs] end.
    simpl in *. unfold delay_is. rewrite Ho, Hwd. split; [assumption|].
    now apply disarm_keeps_delay.
  - unfold load_finished.
    match goal with |- context [fire_if_ready ?x] =>
      destruct (fire_if_ready_frame x) as (Ho & _ & Hwd & _) end.
    unfold delay_is. rewrite Ho, Hwd. split; assumption.
  - split; simpl; [assumption|]. now apply disarm_keeps_delay.
Qed.

(** A timer that goes off is disarmed by the same step. *)
Lemma advance_one_shot (d : N) (b : Barrier) (t : TaskId) :
  timers_ok b ->
  In (ready_timeout t) (snd (advance d b)) ->
  ~ In t (map wd_id (watchdogs (fst (advance d b)))).
Proof.
  intros [Hd _] Hin Hstill. simpl in *.
  apply in_map_iff in Hin as (t' & Et & Hin). inversion Et; subst t'.
  apply in_map_iff in Hin as (w & Hw & Hin).
  apply filter_In in Hin as [Hin Hdue].
  apply in_map_iff in Hstill as (w' & Hw' & Hin').
  apply filter_In in Hin' as [Hin' Hnot].
  assert (w = w') by (eapply timer_of_id_unique; eauto; congruence).
  subst w'. rewrite Hdue in Hnot. discriminate.
Qed.

Lemma advance_timeouts_due (d : N) (b : Barrier) (t : TaskId) :
  In (ready_timeout t) (snd (advance d b)) ->
  exists w, In w (watchdogs b) /\ wd_id w = t
            /\ (wd_start w + wd_delay w <= now b + d)%N.
Proof.
  simpl. intros Hin.
  apply in_map_iff in Hin as (t' & Et & Hin). inversion Et; subst t'.
  apply in_map_iff in Hin as (w & Hw & Hin).
  apply filter_In in Hin as [Hin Hdue].
  exists w; repeat split; auto. unfold due in Hdue. now apply N.leb_le.
Qed.

(** An armed timer whose delay has elapsed goes off. *)
Lemma advance_fires_due (d : N) (b : Barrier) (w : Watchdog) :
  In w (watchdogs b) ->
  (wd_start w + wd_delay w <= now b + d)%N ->
  In (ready_timeout (wd_id w)) (snd (advance d b)).
Proof.
  intros Hin Hle. simpl.
  apply in_map. apply in_map. apply filter_In. split; [exact Hin|].
  unfold due. now apply N.leb_le.
Qed.

(** A task just registered times out exactly when the configured delay has
    passed. *)
Lemma register_times_out_exactly
      (given : option string) (t : TaskId) (b b' : Barrier) (d : N) :
  timers_ok b ->
  register given b = (Normal t, b') ->
  In (ready_timeout t) (snd (advance d b')) <-> (timeout (opt b) <= d)%N.
Proof.
  intros [_ Hp] Hreg. unfold register in Hreg.
  destruct (is_pending b _) eqn:Ep; [discriminate|].
  inversion Hreg; subst t b'; clear Hreg.
  match type of Ep with is_pending b ?x = false => set (t := x) in * end.
  split.
  - intros Hin. apply advance_timeouts_due in Hin as (w & Hw & Hid & Hle).
    simpl in Hw, Hle. apply in_app_iff in Hw as [Hw|[<-|[]]].
    + apply Hp in Hw. rewrite Hid in Hw. congruence.
    + simpl in Hle. lia.
  - intros Hle.
    apply (advance_fires_due d
             {| opt := opt b;
                pending := pending b
                           ++ [{| id := t; registeredAt := now b; timedOut := false |}];
                watchdogs := watchdogs b
                             ++ [{| wd_id := t; wd_start := now b;
                                    wd_delay := timeout (opt b) |}];
                now := now b; loaded := loaded b; fired := fired b;
                next_uid := match given with
                            | Some _ => next_uid b
                            | None => S (next_uid b)
                            end |}
             {| wd_id := t; wd_start := now b; wd_delay := timeout (opt b) |}).
    + simpl. apply in_app_iff; right; simpl; auto.
    + simpl. lia.
Qed.

End BarrierFacts.

(* ================================================================= *)
(** * Properties of [EggApplication] *)

Section EggFacts.

Import ReadyCallback Egg Expected.

Context {LC : LoaderClass}.

Lemma set_console_same (a : EggApplication) : set_console a (console a) = a.
Proof. destruct a; reflexivity. Qed.

(** Listeners only write to the console. *)
Lemma run_listener_console (f : Listener) (e : Event) (a : EggApplication) :
  exists c, run_listener f e a = (Normal tt, set_console a c).
Proof. destruct f; simpl; eexists; reflexivity. Qed.

Lemma listeners_console (ls : list (string * Listener)) (e : Event)
      (a : EggApplication) :
  exists c,
    forEach ls (fun s => run_listener (snd s) e) a = (Normal tt, set_console a c).
Proof.
  revert a; induction ls as [|s ls IH]; intros a; simpl.
  - exists (console a). now rewrite set_console_same.
  - unfold bind. destruct (run_listener_console (snd s) e a) as [c ->].
    destruct (IH (set_console a c)) as [c' ->].
    exists c'; reflexivity.
Qed.

Lemma emit_console (e : Event) (a : EggApplication) :
  exists c, emit e a = (Normal tt, set_console a c).
Proof. unfold emit. apply listeners_console. Qed.

Lemma emit_all_console (evs : list Event) (a : EggApplication) :
  exists c, forEach evs emit a = (Normal tt, set_console a c).
Proof.
  revert a; induction evs as [|e evs IH]; intros a; simpl.
  - exists (console a). now rewrite set_console_same.
  - unfold bind. destruct (emit_console e a) as [c ->].
    destruct (IH (set_console a c)) as [c' ->].
    exists c'; reflexivity.
Qed.

(** One step of the instance's barrier is one step of the barrier; the
    listeners leave it alone. *)
Lemma barrier_step_some (o : Op) (a : EggApplication) (b : Barrier) :
  barrier a = Some b ->
  barrier (fst (barrier_step o a)) = Some (fst (step o b))
  /\ snd (barrier_step o a) = snd (step o b).
Proof.
  unfold barrier_step. intros ->.
  destruct (step o b) as [b' evs]; simpl.
  destruct (emit_all_console evs (set_barrier a (Some b'))) as [c ->].
  split; reflexivity.
Qed.

Lemma barrier_step_none (o : Op) (a : EggApplication) :
  barrier a = None -> barrier_step o a = (a, []).
Proof. unfold barrier_step. now intros ->. Qed.

(** An invariant of barrier steps holds along every run of an instance. *)
Lemma barrier_run_invariant (P : Barrier -> Prop) :
  (forall o b, P b -> P (fst (step o b))) ->
  forall ops a b,
    barrier a = Some b -> P b ->
    exists b', barrier (fst (barrier_run ops a)) = Some b' /\ P b'.
Proof.
  intros Hstep ops; induction ops as [|o ops IH]; intros a b Hb HP; simpl.
  - eauto.
  - destruct (barrier_step_some o a Hb) as [Hb1 _].
    destruct (barrier_step o a) as [a1 evs1]; simpl in Hb1.
    destruct (IH a1 _ Hb1 (Hstep o b HP)) as (b' & Hb' & HP').
    destruct (barrier_run ops a1) as [a2 evs2]; simpl in *. eauto.
Qed.

Lemma barrier_step_budget (o : Op) (a : EggApplication) :
  count_ready (snd (barrier_step o a)) + app_budget (fst (barrier_step o a))
  <= app_budget a.
Proof.
  unfold app_budget at 2. destruct (barrier a) as [b|] eqn:Hb.
  - destruct (barrier_step_some o a Hb) as [H1 H2].
    unfold app_budget. rewrite H1, H2. apply step_budget.
  - rewrite (barrier_step_none o a Hb). unfold app_budget; simpl.
    rewrite Hb. auto.
Qed.

Lemma barrier_run_budget (ops : list Op) (a : EggApplication) :
  count_ready (snd (barrier_run ops a)) + app_budget (fst (barrier_run ops a))
  <= app_budget a.
Proof.
  revert a; induction ops as [|o ops IH]; intros a; simpl.
  - unfold count_ready; simpl. lia.
  - pose proof (barrier_step_budget o a) as H1.
    destruct (barrier_step o a) as [a1 evs1]; simpl in H1.
    pose proof (IH a1) as H2.
    destruct (barrier_run ops a1) as [a2 evs2]; simpl in *.
    rewrite count_ready_app. lia.
Qed.

(** What [_initReady] leaves behind. *)
Lemma initReady_result (a : EggApplication) :
  _initReady a
  = (Normal tt,
     set_events
       (set_barrier a (Some (create (Some {| timeout := 10000 |}))))
       (events a ++ [("ready_stat", log_ready_stat);
                     ("ready_timeout", log_ready_timeout)])).
Proof.
  unfold _initReady, bind, mixin, on, modify; simpl.
  rewrite <- app_assoc. reflexivity.
Qed.

(** C3.  For every instance and every sequence of registrations,
    completions, end-of-loading reports and passages of time applied to
    its barrier, the events emitted contain [ready] at most once. *)
Theorem ready_fires_at_most_once (a : EggApplication) (ops : list Op) :
  count_ready (snd (barrier_run ops a)) <= 1.
Proof.
  pose proof (barrier_run_budget ops a) as H.
  assert (app_budget a <= 1).
  { unfold app_budget, budget. destruct (barrier a) as [b|]; [|lia].
    destruct (fired b); lia. }
  lia.
Qed.

(** C4.  The barrier [_initReady] mixes in is built with timeout 10000,
    which is also the delay used when none is given.  After any run, the
    delay is still 10000 and every armed watchdog carries it.  A successful
    registration stores the task and arms a watchdog for its id, started
    now, with delay 10000, and the task left uncompleted times out exactly
    when 10000 have passed: not before, and as soon as they have.  Every
    armed watchdog goes off once its 10000 have elapsed and not earlier, and
    going off disarms it. *)
Theorem initReady_arms_watchdogs (a : EggApplication) (ops : list Op) :
  timeout (opt (create None)) = 10000%N
  /\ exists b,
       barrier (fst (barrier_run ops (snd (_initReady a)))) = Some b
       /\ timeout (opt b) = 10000%N
       /\ Forall (fun w => wd_delay w = 10000%N) (watchdogs b)
       /\ (forall given t b',
              register given b = (Normal t, b') ->
              In {| wd_id := t; wd_start := now b; wd_delay := 10000 |}
                 (watchdogs b')
              /\ In {| id := t; registeredAt := now b; timedOut := false |}
                    (pending b')
              /\ forall d,
                   In (ready_timeout t) (snd (advance d b')) <-> (10000 <= d)%N)
       /\ (forall w d,
              In w (watchdogs b) ->
              (wd_start w + 10000 <= now b + d)%N ->
              In (ready_timeout (wd_id w)) (snd (advance d b)))
       /\ (forall d t,
              In (ready_timeout t) (snd (advance d b)) ->
              (exists w, In w (watchdogs b) /\ wd_id w = t
                         /\ (wd_start w + 10000 <= now b + d)%N)
              /\ ~ In t (map wd_id (watchdogs (fst (advance d b))))).
Proof.
  split; [reflexivity|].
  rewrite initReady_result; simpl.
  destruct (@barrier_run_invariant
              (fun b => delay_is 10000 b /\ timers_ok b)) with
    (ops := ops)
    (a := set_events
            (set_barrier a (Some (create (Some {| timeout := 10000 |}))))
            (events a ++ [("ready_stat", log_ready_stat);
                          ("ready_timeout", log_ready_timeout)]))
    (b := create (Some {| timeout := 10000 |}))
    as (b & Hb & [Ht Hw] & Hok).
  - intros o b [H1 H2]; split; [now apply step_delay_is|now apply step_timers_ok].
  - reflexivity.
  - split; [split; [reflexivity|constructor]|].
    split; simpl; [constructor|intros w []].
  - exists b.
    split; [exact Hb|]. split; [exact Ht|]. split; [exact Hw|].
    split; [|split].
    + intros given t b' H. split; [|split].
      * unfold register in H.
        destruct (is_pending b _); [discriminate|].
        inversion H; subst; simpl. rewrite Ht.
        apply in_app_iff; right; simpl; auto.
      * unfold register in H.
        destruct (is_pending b _); [discriminate|].
        inversion H; subst; simpl.
        apply in_app_iff; right; simpl; auto.
      * intros d. rewrite <- Ht.
        exact (@register_times_out_exactly given t b b' d Hok H).
    + intros w d Hin Hle. apply advance_fires_due; [exact Hin|].
      rewrite Forall_forall in Hw. now rewrite (Hw w Hin).
    + intros d t H. split.
      * destruct (advance_timeouts_due _ _ _ H) as (w & Hin & Hid & Hle).
        exists w; repeat split; auto.
        rewrite Forall_forall in Hw. rewrite <- (Hw w Hin). exact Hle.
      * now apply advance_one_shot.
Qed.

(** The four assertions, as one decision on the defaulted directory. *)
Lemma check_options_spec (opts : option Options.t) (p : Process.t) :
  check_options opts p
  = match validated_baseDir opts p with
    | JSString s =>
        match Process.fs p s with
        | None =>
            (Throw (AssertionError ("Directory " ++ s ++ " not exists")), p)
        | Some Process.RegularFile =>
            (Throw (AssertionError ("Directory " ++ s ++ " is not a directory")),
             p)
        | Some Process.Directory =>
            if type_accepted (Options.or_empty opts)
            then (Normal (Options.set_baseDir (Options.or_empty opts)
                                              (JSString s)), p)
            else (Throw (AssertionError
                           "options.type should be application or agent"), p)
        end
    | _ => (Throw (AssertionError
                     "options.baseDir required, and must be a string"), p)
    end.
Proof.
  unfold check_options, validated_baseDir, bind, Process.process_cwd; simpl.
  destruct (js_or (Options.baseDir (Options.or_empty opts))
                  (JSString (Process.cwd p))) as [| |b|n| |s| |els|n m| |n m];
    simpl; try reflexivity.
  unfold Process.existsSync, Process.statSync, type_accepted, lift.
  destruct (Process.fs p s) as [[|]|] eqn:E; cbn -[append Process.fs];
    rewrite ?E; cbn -[append Process.fs]; try reflexivity.
  destruct (strict_eq_string (Options.type (Options.or_empty opts)) "application"
            || strict_eq_string (Options.type (Options.or_empty opts)) "agent");
    reflexivity.
Qed.

(** The constructor after its checks. *)
Lemma constructor_spec (opts : option Options.t) (p : Process.t) :
  constructor opts p
  = match check_options opts p with
    | (Throw e, p1) => (Throw e, p1)
    | (Normal o, p1) =>
        match loadConfig (new_Loader (Options.baseDir o) (Options.plugins o)) with
        | (Throw e, _) => (Throw e, p1)
        | (Normal _, l) =>
            (Normal (set_handler_ref (snd (_initReady (assigned o l)))
                                     (Process.BoundFunction (Process.next_oid p1))),
             {| Process.cwd := Process.cwd p1;
                Process.volume := Process.volume p1;
                Process.unhandledRejection :=
                  (Process.unhandledRejection p1
                   ++ [Process.BoundFunction (Process.next_oid p1)])%list;
                Process.next_oid := S (Process.next_oid p1) |})
        end
    end.
Proof.
  unfold constructor, bind.
  destruct (check_options opts p) as [[o|e] p1]; [|reflexivity].
  cbn [loader assigned].
  destruct (loadConfig (new_Loader (Options.baseDir o) (Options.plugins o)))
    as [[[]|e] l]; [|reflexivity].
  unfold on_this. rewrite !initReady_result. reflexivity.
Qed.

Lemma check_options_process (opts : option Options.t) (p : Process.t) :
  snd (check_options opts p) = p.
Proof.
  rewrite check_options_spec.
  destruct (validated_baseDir opts p); try reflexivity.
  destruct (Process.fs p _) as [[|]|]; try reflexivity.
  destruct (type_accepted _); reflexivity.
Qed.

(** What a successful construction tells. *)
Lemma constructor_normal (opts : option Options.t) (p p' : Process.t)
      (a : EggApplication) :
  constructor opts p = (Normal a, p') ->
  exists l,
    is_string (validated_baseDir opts p) = true
    /\ is_directory_on p (validated_baseDir opts p) = true
    /\ type_accepted (Options.or_empty opts) = true
    /\ a = set_handler_ref
             (snd (_initReady
                     (assigned (Options.set_baseDir (Options.or_empty opts)
                                                    (validated_baseDir opts p)) l)))
             (Process.BoundFunction (Process.next_oid p))
    /\ Process.unhandledRejection p'
       = (Process.unhandledRejection p
          ++ [Process.BoundFunction (Process.next_oid p)])%list.
Proof.
  rewrite constructor_spec, check_options_spec.
  unfold is_directory_on.
  destruct (validated_baseDir opts p) as [| |b|n| |s| |els|n m| |n m];
    simpl; try discriminate.
  destruct (Process.fs p s) as [[|]|]; try discriminate.
  destruct (type_accepted (Options.or_empty opts)); [|discriminate].
  cbn [Options.baseDir Options.plugins Options.set_baseDir].
  destruct (loadConfig _) as [[[]|e] l]; [|discriminate].
  intros H; inversion H; subst. exists l; repeat split; reflexivity.
Qed.

(** The logger set the handler writes to: the cached one, or the one the
    getter creates on first use. *)
Lemma coreLogger_error_result (err : JSValue) (a : EggApplication) :
  coreLogger_error err a
  = (Normal tt,
     set_LOGGERS a
       (Some {| logger_ :=
                  logger_ (match LOGGERS a with
                           | Some l => l
                           | None => createLoggers a
                           end);
                coreLogger_ :=
                  log ERROR err []
                      (coreLogger_ (match LOGGERS a with
                                    | Some l => l
                                    | None => createLoggers a
                                    end)) |})).
Proof.
  unfold coreLogger_error, coreLogger, loggers, bind, modify, ret.
  destruct (LOGGERS a) as [l|] eqn:E; simpl; rewrite ?E; reflexivity.
Qed.

(** The two outcomes of the handler: on a loggable rejection one record
    joins the core logger, on any other the handler raises and leaves the
    instance as it was. *)
Lemma handler_outcome (v : JSValue) (a : EggApplication) :
  (loggable v = true ->
   exists e,
     _unhandledRejectionHandler v a
     = (Normal tt,
        set_LOGGERS a
          (Some {| logger_ := logger_ (current_loggers a);
                   coreLogger_ :=
                     (coreLogger_ (current_loggers a) ++ [error_record e])%list |}))
     /\ logged_as v e)
  /\ (loggable v = false ->
      exists x, _unhandledRejectionHandler v a = (Throw x, a)).
Proof.
  unfold _unhandledRejectionHandler, loggable, logged_as, current_loggers,
    error_record, bind, lift, ret.
  destruct v as [| |[|]|z| |s| |els|n m| |n m].
  1-8: cbn -[coreLogger_error];
       (split; [intros _|intros H; discriminate H]);
       rewrite coreLogger_error_result;
       eexists; (split; [reflexivity|]);
       repeat split; try discriminate; try (intros; discriminate);
       intros _; eexists; split; reflexivity.
  - destruct (js_String (JSArray els)) as [str|x] eqn:E;
      cbn -[js_String coreLogger_error]; rewrite ?E;
      cbn -[js_String coreLogger_error].
    + split; [intros _|intros H; discriminate H].
      cbn -[js_String coreLogger_error].
      rewrite coreLogger_error_result. eexists; split; [reflexivity|].
      repeat split; try discriminate; try (intros; discriminate).
      intros _. exists str. split; reflexivity.
    + split; [intros H; discriminate H|intros _].
      exists x. reflexivity.
  - split; [intros _|intros H; discriminate H].
    cbn -[String.eqb coreLogger_error].
    destruct (String.eqb n "Error") eqn:E; cbn -[String.eqb coreLogger_error];
      rewrite coreLogger_error_result; eexists; (split; [reflexivity|]);
      repeat split; try discriminate; try (intros; discriminate).
    + intros n' m' H; inversion H; subst. now rewrite E.
    + intros H; inversion H; subst. rewrite String.eqb_refl in E. discriminate.
    + intros n' m' H; inversion H; subst. now rewrite E.
  - split; [intros H; discriminate H|intros _].
    eexists; reflexivity.
  - cbn -[String.eqb coreLogger_error].
    destruct (String.eqb n "Error") eqn:E; cbn -[String.eqb coreLogger_error].
    + split; [intros H; discriminate H|intros _].
      eexists; reflexivity.
    + split; [intros _|intros H; discriminate H].
      rewrite coreLogger_error_result; eexists; (split; [reflexivity|]);
        repeat split; try discriminate; try (intros; discriminate).
      intros H; inversion H; subst. rewrite String.eqb_refl in E. discriminate.
Qed.


(** Using a member of the class never touches the process. *)
Lemma invoke_process (m : Member) (a : EggApplication) (p : Process.t) :
  snd (snd (invoke m (a, p))) = p.
Proof.
  unfold invoke; simpl. destruct (member_effect m a); reflexivity.
Qed.

(** C6, as the code has it.  A construction that succeeds appends exactly one
    listener to the process, the function freshly bound in the constructor,
    and keeps that function in the instance's [_unhandledRejectionHandler];
    a construction that fails installs nothing.  No member of the class
    removes a listener: whatever member is used, the listeners of the
    process stay as they are. *)
Theorem constructor_installs_one_handler (opts : option Options.t) (p : Process.t) :
  match constructor opts p with
  | (Normal a, p') =>
      Process.unhandledRejection p'
      = (Process.unhandledRejection p ++ [_unhandledRejectionHandler_ref a])%list
      /\ _unhandledRejectionHandler_ref a = Process.BoundFunction (Process.next_oid p)
      /\ List.length (Process.unhandledRejection p')
         = S (List.length (Process.unhandledRejection p))
      /\ forall (m : Member) (q : Process.t),
           Process.unhandledRejection (snd (snd (invoke m (a, q))))
           = Process.unhandledRejection q
  | (Throw _, p') =>
      Process.unhandledRejection p' = Process.unhandledRejection p
  end.
Proof.
  destruct (constructor opts p) as [[a|e] p'] eqn:E.
  - destruct (constructor_normal _ _ E) as (l & _ & _ & _ & Ha & Hp).
    assert (Hf : _unhandledRejectionHandler_ref a
                 = Process.BoundFunction (Process.next_oid p))
      by (subst a; reflexivity).
    repeat split.
    + now rewrite Hf.
    + exact Hf.
    + rewrite Hp, length_app; simpl. lia.
    + intros m q. now rewrite invoke_process.
  - rewrite constructor_spec in E.
    pose proof (check_options_process opts p) as Hc.
    destruct (check_options opts p) as [[o|e'] p1]; simpl in Hc; subst p1.
    + destruct (loadConfig _) as [[[]|e'] l]; inversion E; subst; reflexivity.
    + inversion E; subst; reflexivity.
Qed.

(** C7, as the code has it.  With [bd] the directory after line 23
    ([options.baseDir] if truthy, else [process.cwd()]): a truthy [baseDir]
    that is not a string, a [bd] at which there is no directory, or a [type]
    other than ['application'] and ['agent'] make the constructor raise an
    assertion error before anything else happens, the process untouched;
    when [bd] is a string naming a directory and [type] is accepted, the
    four assertions pass. *)
Theorem constructor_rejects_invalid_arguments
        (opts : option Options.t) (p : Process.t) :
  (truthy (Options.baseDir (Options.or_empty opts)) = true ->
   is_string (Options.baseDir (Options.or_empty opts)) = false ->
   constructor opts p
   = (Throw (AssertionError "options.baseDir required, and must be a string"), p))
  /\ (is_directory_on p (validated_baseDir opts p) = false ->
      exists msg, constructor opts p = (Throw (AssertionError msg), p))
  /\ (type_accepted (Options.or_empty opts) = false ->
      exists msg, constructor opts p = (Throw (AssertionError msg), p))
  /\ (is_directory_on p (validated_baseDir opts p) = true ->
      type_accepted (Options.or_empty opts) = true ->
      check_options opts p
      = (Normal (Options.set_baseDir (Options.or_empty opts)
                                     (validated_baseDir opts p)), p)).
Proof.
  rewrite constructor_spec, check_options_spec.
  unfold validated_baseDir, is_directory_on, js_or.
  split; [|split; [|split]].
  - intros Ht Hs. rewrite Ht.
    destruct (Options.baseDir (Options.or_empty opts)); try discriminate Hs;
      reflexivity.
  - destruct (if truthy _ then _ else _) as [| |b|n| |s| |els|n m| |n m];
      simpl; eauto.
    destruct (Process.fs p s) as [[|]|]; [discriminate|eauto|eauto].
  - intros Hty. rewrite Hty.
    destruct (if truthy _ then _ else _) as [| |b|n| |s| |els|n m| |n m];
      simpl; eauto.
    destruct (Process.fs p s) as [[|]|]; eauto.
  - destruct (if truthy _ then _ else _) as [| |b|n| |s| |els|n m| |n m];
      simpl; try discriminate.
    destruct (Process.fs p s) as [[|]|]; try discriminate.
    intros _ ->. reflexivity.
Qed.

(** C8.  An instance the constructor returns has exactly two subscriptions,
    one to [ready_stat] and one to [ready_timeout].  On [ready_stat] it calls
    [console.info] with the completed id and the remaining ids; on
    [ready_timeout] it calls [console.warn] with the id, in a message whose
    "10 seconds" is the delay its barrier was configured with (10000, in
    thousandths). *)
Theorem constructor_logs_barrier_events
        (opts : option Options.t) (p p' : Process.t) (a : EggApplication)
        (done late : TaskId) (remain : list TaskId) :
  constructor opts p = (Normal a, p') ->
  events a = [("ready_stat", log_ready_stat); ("ready_timeout", log_ready_timeout)]
  /\ emit (ready_stat done remain) a
     = (Normal tt,
        set_console a
          (console a
           ++ [{| level := INFO;
                  message :=
                    JSString "[egg:core:ready_stat] end ready task %s, remain %j";
                  args := [id_value done; JSArray (map id_value remain)] |}])%list)
  /\ (exists b,
        barrier a = Some b
        /\ timeout (opt b) = 10000%N
        /\ emit (ready_timeout late) a
           = (Normal tt,
              set_console a
                (console a
                 ++ [{| level := WARN;
                        message :=
                          JSString
                            ("[egg:core:ready_timeout] "
                             ++ string_of_Z (Z.of_N (timeout (opt b) / 1000))
                             ++ " seconds later %s was still unable to finish.");
                        args := [id_value late] |}])%list)).
Proof.
  intros H. destruct (constructor_normal _ _ H) as (l & _ & _ & _ & -> & _).
  rewrite initReady_result.
  split; [reflexivity|]. split; [reflexivity|].
  eexists; split; [reflexivity|]. split; reflexivity.
Qed.

(** C10.  When the constructor gets no options object, or one without
    [baseDir], it behaves exactly as if [process.cwd()] had been passed as
    [baseDir]: the checks run on that directory, the "must be a string"
    assertion is not what fails, and an instance that results has
    [process.cwd()] as its [baseDir]. *)
Theorem baseDir_defaults_to_cwd (opts : option Options.t) (p : Process.t) :
  Options.baseDir (Options.or_empty opts) = JSUndefined ->
  validated_baseDir opts p = JSString (Process.cwd p)
  /\ constructor opts p
     = constructor (Some (Options.set_baseDir (Options.or_empty opts)
                                              (JSString (Process.cwd p)))) p
  /\ fst (check_options opts p)
     <> Throw (AssertionError "options.baseDir required, and must be a string")
  /\ (forall a p', constructor opts p = (Normal a, p') ->
      baseDir a = JSString (Process.cwd p)).
Proof.
  intros Habs.
  assert (Hbd : validated_baseDir opts p = JSString (Process.cwd p)).
  { unfold validated_baseDir, js_or. now rewrite Habs. }
  assert (Hbd' : validated_baseDir
                   (Some (Options.set_baseDir (Options.or_empty opts)
                                              (JSString (Process.cwd p)))) p
                 = JSString (Process.cwd p)).
  { unfold validated_baseDir, js_or; simpl.
    destruct (negb _); reflexivity. }
  repeat split.
  - exact Hbd.
  - rewrite !constructor_spec, !check_options_spec, Hbd, Hbd'. reflexivity.
  - rewrite check_options_spec, Hbd.
    destruct (Process.fs p _) as [[|]|]; cbn -[Process.fs]; try discriminate.
    destruct (type_accepted _); discriminate.
  - intros a p' H.
    destruct (constructor_normal _ _ H) as (l & _ & _ & _ & -> & _).
    rewrite initReady_result; unfold baseDir; simpl. exact Hbd.
Qed.

End EggFacts.

(* ================================================================= *)
(** * The properties at concrete inputs *)

Lemma loadCustom_one_file_per_unit_witness :
  EggLoader.requested
    (snd (EggLoader.loadCustom Examples.slash_join EggLoader.app_kind
                               Examples.loader0))
  = ["plugins/one/app.js"; "plugins/two/app.js"; "app/app.js"].
Proof.
  destruct (@loadCustom_one_file_per_unit _ Examples.slash_join Examples.loader0)
    as (_ & _ & H).
  destruct (H EggLoader.app_kind) as (n & _ & Hreq & Hn).
  rewrite Hreq, (Hn tt eq_refl). reflexivity.
Defined.

Lemma initReady_arms_watchdogs_witness :
  In {| ReadyCallback.wd_id := ReadyCallback.Named "db";
        ReadyCallback.wd_start := 0;
        ReadyCallback.wd_delay := 10000 |}
     (ReadyCallback.watchdogs
        (snd (ReadyCallback.register (Some "db")
                (ReadyCallback.create
                   (Some {| ReadyCallback.timeout := 10000 |})))))
  /\ In (ReadyCallback.ready_timeout (ReadyCallback.Named "db"))
        (snd (ReadyCallback.advance 10000
                (snd (ReadyCallback.register (Some "db")
                        (ReadyCallback.create
                           (Some {| ReadyCallback.timeout := 10000 |}))))))
  /\ ~ In (ReadyCallback.ready_timeout (ReadyCallback.Named "db"))
          (snd (ReadyCallback.advance 9999
                  (snd (ReadyCallback.register (Some "db")
                          (ReadyCallback.create
                             (Some {| ReadyCallback.timeout := 10000 |})))))).
Proof.
  destruct (@initReady_arms_watchdogs Examples.plain_loader Examples.blank_app [])
    as (_ & b & Hb & _ & _ & Hreg & _).
  cbn in Hb. injection Hb as Hb. subst b.
  destruct (Hreg (Some "db") (ReadyCallback.Named "db") _ eq_refl)
    as (Hw & _ & Hexact).
  split; [exact Hw|]. split.
  - apply Hexact. lia.
  - intros Hin. apply Hexact in Hin. lia.
Defined.


Lemma constructor_rejects_invalid_arguments_witness :
  @Egg.constructor Examples.plain_loader
     (Some (Examples.app_options (JSNumber Examples.seven))) Examples.process0
  = (Throw (AssertionError "options.baseDir required, and must be a string"),
     Examples.process0)
  /\ (exists msg,
         @Egg.constructor Examples.plain_loader
            (Some (Examples.app_options (JSString "/srv/demo/package.json")))
            Examples.process0
         = (Throw (AssertionError msg), Examples.process0))
  /\ (exists msg,
         @Egg.constructor Examples.plain_loader
            (Some {| Options.baseDir := JSString "/srv/demo";
                     Options.type := JSString "worker";
                     Options.plugins := JSUndefined |})
            Examples.process0
         = (Throw (AssertionError msg), Examples.process0))
  /\ @Egg.check_options
       (Some (Examples.app_options (JSString "/srv/demo"))) Examples.process0
     = (Normal (Examples.app_options (JSString "/srv/demo")), Examples.process0).
Proof.
  split; [|split; [|split]].
  - destruct (@constructor_rejects_invalid_arguments Examples.plain_loader
                (Some (Examples.app_options (JSNumber Examples.seven))) Examples.process0)
      as (H & _).
    exact (H eq_refl eq_refl).
  - destruct (@constructor_rejects_invalid_arguments Examples.plain_loader
                (Some (Examples.app_options (JSString "/srv/demo/package.json")))
                Examples.process0)
      as (_ & H & _).
    exact (H eq_refl).
  - destruct (@constructor_rejects_invalid_arguments Examples.plain_loader
                (Some {| Options.baseDir := JSString "/srv/demo";
                         Options.type := JSString "worker";
                         Options.plugins := JSUndefined |})
                Examples.process0)
      as (_ & _ & H & _).
    exact (H eq_refl).
  - destruct (@constructor_rejects_invalid_arguments Examples.plain_loader
                (Some (Examples.app_options (JSString "/srv/demo")))
                Examples.process0)
      as (_ & _ & _ & H).
    exact (H eq_refl eq_refl).
Defined.

Lemma constructor_logs_barrier_events_witness :
  @Egg.constructor Examples.plain_loader
     (Some (Examples.app_options (JSString "/srv/demo"))) Examples.process0
  = (Normal (Examples.built (JSString "/srv/demo") 0), Examples.process1)
  /\ Egg.console
       (snd (Egg.emit (ReadyCallback.ready_timeout (ReadyCallback.Named "db"))
                      (Examples.built (JSString "/srv/demo") 0)))
     = [{| Egg.level := Egg.WARN;
           Egg.message :=
             JSString
               "[egg:core:ready_timeout] 10 seconds later %s was still unable to finish.";
           Egg.args := [JSString "db"] |}].
Proof.
  split; [reflexivity|].
  destruct (@constructor_logs_barrier_events Examples.plain_loader
              (Some (Examples.app_options (JSString "/srv/demo")))
              Examples.process0 Examples.process1
              (Examples.built (JSString "/srv/demo") 0)
              (ReadyCallback.Named "cfg") (ReadyCallback.Named "db") []
              eq_refl)
    as (_ & _ & b & Hb & _ & Hwarn).
  rewrite Hwarn. cbn in Hb. injection Hb as Hb. subst b. reflexivity.
Defined.

Lemma baseDir_defaults_to_cwd_witness :
  @Egg.constructor Examples.plain_loader
     (Some (Examples.app_options JSUndefined)) Examples.process0
  = (Normal (Examples.built (JSString "/srv/demo") 0), Examples.process1)
  /\ Egg.baseDir (Examples.built (JSString "/srv/demo") 0) = JSString "/srv/demo".
Proof.
  split; [reflexivity|].
  destruct (@baseDir_defaults_to_cwd Examples.plain_loader
              (Some (Examples.app_options JSUndefined)) Examples.process0
              eq_refl)
    as (_ & _ & _ & H).
  exact (H (Examples.built (JSString "/srv/demo") 0) Examples.process1 eq_refl).
Defined.

(** C6 as stated fails: two instances built from the same valid options in
    one process leave two listeners installed, and no member of either
    instance takes one away. *)
Lemma handlers_accumulate_counterexample :
  @Egg.constructor Examples.plain_loader
     (Some (Examples.app_options (JSString "/srv/demo"))) Examples.process0
  = (Normal (Examples.built (JSString "/srv/demo") 0), Examples.process1)
  /\ @Egg.constructor Examples.plain_loader
       (Some (Examples.app_options (JSString "/srv/demo"))) Examples.process1
     = (Normal (Examples.built (JSString "/srv/demo") 1), Examples.process2)
  /\ Process.unhandledRejection Examples.process2
     = [Process.BoundFunction 0; Process.BoundFunction 1]
  /\ forall m : Egg.Member,
       Process.unhandledRejection
         (snd (snd (Egg.invoke m (Examples.built (JSString "/srv/demo") 0,
                                  Examples.process2))))
       = [Process.BoundFunction 0; Process.BoundFunction 1]
       /\ Process.unhandledRejection
            (snd (snd (Egg.invoke m (Examples.built (JSString "/srv/demo") 1,
                                     Examples.process2))))
          = [Process.BoundFunction 0; Process.BoundFunction 1].
Proof.
  split; [reflexivity|]. split; [reflexivity|]. split; [reflexivity|].
  intros m. rewrite !invoke_process. split; reflexivity.
Qed.


(** C7 as stated fails: [baseDir: 0] is not a string, yet the constructor
    succeeds, with the working directory as [baseDir]. *)
Lemma constructor_accepts_falsy_baseDir_counterexample :
  is_string (JSNumber zero) = false
  /\ @Egg.constructor Examples.plain_loader
       (Some (Examples.app_options (JSNumber zero))) Examples.process0
     = (Normal (Examples.built (JSString "/srv/demo") 0), Examples.process1)
  /\ Egg.baseDir (Examples.built (JSString "/srv/demo") 0) = JSString "/srv/demo".
Proof.
  split; [reflexivity|]. split; reflexivity.
Qed.

(* ================================================================= *)
(** * Further properties of the loader mixin *)

Section LoaderMore.

Import EggLoader Expected.

Variable Ctx : Type.
Variable path_join : string -> string -> string.

(** What one [loadFile] call adds to the hooks entered and does to the
    context, whatever its outcome. *)
Lemma loadFile_effect (f : string) (l : Loader Ctx) :
  invoked (hook_log (snd (loadFile f l)))
  = (invoked (hook_log l) ++ present l [f])%list
  /\ app (snd (loadFile f l)) = threaded l [f] (app l).
Proof.
  unfold loadFile, present, threaded; simpl.
  destruct (resolve l f) as [h|]; simpl.
  - destruct (h (app l)) as [[u|e] c]; simpl;
      rewrite ?invoked_app; simpl; rewrite ?invoked_app; simpl;
      rewrite ?app_nil_r; auto.
  - now rewrite app_nil_r.
Qed.

Lemma present_resolve (l l' : Loader Ctx) (fs : list string) :
  resolve l' = resolve l -> present l' fs = present l fs.
Proof. unfold present. now intros ->. Qed.

Lemma threaded_resolve (l l' : Loader Ctx) (fs : list string) (c : Ctx) :
  resolve l' = resolve l -> threaded l' fs c = threaded l fs c.
Proof. unfold threaded. now intros ->. Qed.

Lemma run_files_prefix (fs : list string) (l : Loader Ctx) :
  exists n,
    n <= List.length fs
    /\ invoked (hook_log (snd (forEach fs (@loadFile Ctx) l)))
       = (invoked (hook_log l) ++ present l (firstn n fs))%list
    /\ (forall r, fst (forEach fs (@loadFile Ctx) l) = Normal r ->
        n = List.length fs)
    /\ (forall e, fst (forEach fs (@loadFile Ctx) l) = Throw e ->
        exists h, nth_error fs (pred n) = Some h /\ 0 < n
                  /\ resolve l h <> None).
Proof.
  revert l; induction fs as [|f fs IH]; intros l; simpl.
  - exists 0; simpl. rewrite app_nil_r.
    repeat split; auto. intros e H; discriminate.
  - unfold bind.
    destruct (loadFile_effect f l) as [Hinv _].
    destruct (loadFile_frame f l) as (Hr & _).
    destruct (loadFile f l) as [[u|e] l1] eqn:E; simpl in *.
    + destruct (IH l1) as (n & Hn & Hlog & Hall & Hthrow).
      exists (S n); simpl. repeat split; [lia| | |].
      * rewrite Hlog, Hinv, (@present_resolve l l1 _ Hr), <- app_assoc.
        f_equal. unfold present; simpl.
        destruct (resolve l f); reflexivity.
      * intros r Hrn. now rewrite (Hall r Hrn).
      * intros e He. destruct (Hthrow e He) as (h & Hnth & Hpos & Hres).
        exists h. repeat split; [|lia|congruence].
        destruct n; [lia|exact Hnth].
    + exists 1; simpl. repeat split; [lia|exact Hinv| |].
      * intros r Hrn; discriminate.
      * intros e' _. exists f. repeat split; [lia|].
        unfold loadFile in E; simpl in E.
        destruct (resolve l f); [discriminate|inversion E].
Qed.

Lemma run_files_context (fs : list string) (l l' : Loader Ctx) :
  forEach fs (@loadFile Ctx) l = (Normal tt, l') ->
  app l' = threaded l fs (app l).
Proof.
  revert l; induction fs as [|f fs IH]; intros l; simpl.
  - unfold ret; intros H; inversion H; reflexivity.
  - unfold bind.
    destruct (loadFile_effect f l) as [_ Hctx].
    destruct (loadFile_frame f l) as (Hr & _).
    destruct (loadFile f l) as [[[]|e] l1] eqn:E; simpl in *; [|discriminate].
    intros H. rewrite (IH _ H), (@threaded_resolve l l1 _ _ Hr), Hctx.
    reflexivity.
Qed.

(** X1.  A load that completes hands every hook the context as the hooks of
    the earlier units left it: the final context is the result of running
    the existing hooks one after the other in unit order. *)
Theorem loadCustom_threads_context (k : Kind) (l l' : Loader Ctx) :
  loadCustom path_join k l = (Normal tt, l') ->
  app l' = threaded l (map (hook_path path_join k) (loadUnits l)) (app l).
Proof.
  rewrite loadCustom_scheme, load_named_files.
  apply run_files_context.
Qed.

(** X2.  Whatever the outcome of a load, the hooks entered are the existing
    hook files of the first [n] units, in unit order, for some [n]: all units
    when the load completes; when it raises, the [n]-th unit is one that has
    a hook. *)
Theorem loadCustom_enters_a_prefix (k : Kind) (l : Loader Ctx) :
  exists n,
    n <= List.length (loadUnits l)
    /\ invoked (hook_log (snd (loadCustom path_join k l)))
       = (invoked (hook_log l)
          ++ present l (map (hook_path path_join k) (firstn n (loadUnits l))))%list
    /\ (forall r, fst (loadCustom path_join k l) = Normal r ->
        n = List.length (loadUnits l))
    /\ (forall e, fst (loadCustom path_join k l) = Throw e ->
        exists u, nth_error (loadUnits l) (pred n) = Some u /\ 0 < n
                  /\ resolve l (hook_path path_join k u) <> None).
Proof.
  rewrite loadCustom_scheme, load_named_files.
  destruct (run_files_prefix
              (map (fun u => path_join (path u) (hook_filename k)) (loadUnits l)) l)
    as (n & Hn & Hlog & Hall & Hthrow).
  rewrite length_map in Hn, Hall.
  exists n. repeat split; auto.
  - rewrite Hlog. unfold hook_path. now rewrite firstn_map.
  - intros e He. destruct (Hthrow e He) as (h & Hnth & Hpos & Hres).
    rewrite nth_error_map in Hnth.
    destruct (nth_error (loadUnits l) (pred n)) as [u|]; [|discriminate].
    inversion Hnth; subst. exists u; auto.
Qed.

(** X3.  Two loads one after the other on the same loader, of the same or of
    different kinds, both completing: the hook log holds the brackets of the
    first load followed by those of the second, each in unit order. *)
Theorem loadCustom_twice (k1 k2 : Kind) (l l2 : Loader Ctx) :
  (loadCustom path_join k1 ;;; loadCustom path_join k2) l = (Normal tt, l2) ->
  hook_log l2
  = (hook_log l
     ++ flat_map (bracket l) (map (hook_path path_join k1) (loadUnits l))
     ++ flat_map (bracket l) (map (hook_path path_join k2) (loadUnits l)))%list.
Proof.
  unfold bind. rewrite !loadCustom_scheme. rewrite (load_named_files path_join _ l).
  destruct (run_files_requested
              (map (fun u => path_join (path u) (hook_filename k1)) (loadUnits l)) l)
    as (Hr & Hu & _).
  destruct (forEach _ (@loadFile Ctx) l) as [[[]|e] l1] eqn:E1; [|discriminate].
  simpl in Hr, Hu.
  rewrite load_named_files, Hu. intros E2.
  rewrite (@run_files_normal _ _ _ _ E2), (@run_files_normal _ _ _ _ E1), <- app_assoc.
  f_equal. f_equal. apply flat_map_ext. intros f. now apply bracket_resolve.
Qed.

End LoaderMore.

(* ================================================================= *)
(** * Further properties of [EggApplication] *)

Section EggMore.

Import ReadyCallback Egg Expected.

Context {LC : LoaderClass}.

Lemma strict_eq_string_true (v : JSValue) (s : string) :
  strict_eq_string v s = true -> v = JSString s.
Proof.
  destruct v; simpl; try discriminate.
  intros H. apply String.eqb_eq in H. now subst.
Qed.

(** The process a construction leaves behind. *)
Lemma constructor_process (opts : option Options.t) (p : Process.t) :
  match constructor opts p with
  | (Normal _, p') =>
      p' = {| Process.cwd := Process.cwd p;
              Process.volume := Process.volume p;
              Process.unhandledRejection :=
                (Process.unhandledRejection p
                 ++ [Process.BoundFunction (Process.next_oid p)])%list;
              Process.next_oid := S (Process.next_oid p) |}
  | (Throw _, p') => p' = p
  end.
Proof.
  rewrite constructor_spec.
  pose proof (check_options_process opts p) as Hc.
  destruct (check_options opts p) as [[o|e] p1]; simpl in Hc; subst p1;
    [|reflexivity].
  destruct (loadConfig _) as [[[]|e] l]; reflexivity.
Qed.

(** X4.  Which assertion fails, and with what message.  With [s] the
    directory after defaulting: nothing at [s] gives "Directory s not
    exists", a regular file at [s] gives "Directory s is not a directory",
    both whatever [type] is; only with a directory at [s] does a bad [type]
    give "options.type should be application or agent". *)
Theorem constructor_assertion_messages
        (opts : option Options.t) (p : Process.t) (s : string) :
  validated_baseDir opts p = JSString s ->
  (Process.fs p s = None ->
   constructor opts p
   = (Throw (AssertionError ("Directory " ++ s ++ " not exists")), p))
  /\ (Process.fs p s = Some Process.RegularFile ->
      constructor opts p
      = (Throw (AssertionError ("Directory " ++ s ++ " is not a directory")), p))
  /\ (Process.fs p s = Some Process.Directory ->
      type_accepted (Options.or_empty opts) = false ->
      constructor opts p
      = (Throw (AssertionError "options.type should be application or agent"), p)).
Proof.
  intros Hbd. rewrite constructor_spec, check_options_spec, Hbd.
  repeat split.
  - intros ->. reflexivity.
  - intros ->. reflexivity.
  - intros -> ->. reflexivity.
Qed.

(** X5.  What holds of every instance the constructor returns: its [type] is
    the one passed and is ['application'] or ['agent']; its [baseDir] is a
    string at which the process finds a directory; [plugins] is kept as
    passed.  The process keeps its working directory and its files. *)
Theorem constructor_result_is_valid
        (opts : option Options.t) (p p' : Process.t) (a : EggApplication) :
  constructor opts p = (Normal a, p') ->
  (type a = JSString "application" \/ type a = JSString "agent")
  /\ type a = Options.type (Options.or_empty opts)
  /\ (exists s, baseDir a = JSString s
                /\ Process.fs p' s = Some Process.Directory)
  /\ Options.plugins (_options a) = Options.plugins (Options.or_empty opts)
  /\ Process.cwd p' = Process.cwd p
  /\ Process.fs p' = Process.fs p.
Proof.
  intros H.
  pose proof (constructor_process opts p) as Hp. rewrite H in Hp. subst p'.
  destruct (constructor_normal _ _ H) as (l & Hs & Hd & Hty & -> & _).
  rewrite initReady_result. unfold type, baseDir; simpl.
  repeat split.
  - unfold type_accepted in Hty. apply orb_true_iff in Hty as [Hty|Hty];
      apply strict_eq_string_true in Hty; auto.
  - unfold is_directory_on in Hd.
    destruct (validated_baseDir opts p) as [| |b|n| |s| |els|n m| |n m];
      try discriminate.
    exists s. split; [reflexivity|].
    change (Process.fs p s = Some Process.Directory).
    destruct (Process.fs p s) as [[|]|]; try discriminate. reflexivity.
Qed.

(** X6.  When the checks pass and [loader.loadConfig()] raises [e], the
    constructor raises [e]; the process is left as it was, so no handler has
    been installed. *)
Theorem constructor_propagates_loadConfig_failure
        (opts : option Options.t) (p : Process.t) (e : JSValue) (l : LoaderT) :
  is_directory_on p (validated_baseDir opts p) = true ->
  type_accepted (Options.or_empty opts) = true ->
  loadConfig (new_Loader (validated_baseDir opts p)
                         (Options.plugins (Options.or_empty opts)))
  = (Throw e, l) ->
  constructor opts p = (Throw e, p).
Proof.
  intros Hd Hty Hl.
  rewrite constructor_spec, check_options_spec.
  unfold is_directory_on in Hd.
  destruct (validated_baseDir opts p) as [| |b|n| |s| |els|n m| |n m] eqn:Hbd;
    try discriminate.
  destruct (Process.fs p s) as [[|]|]; try discriminate.
  rewrite Hty.
  cbn [Options.baseDir Options.plugins Options.set_baseDir] in *.
  now rewrite Hl.
Qed.


Lemma current_loggers_set (a : EggApplication) (l : Loggers) :
  current_loggers (set_LOGGERS a (Some l)) = l.
Proof. reflexivity. Qed.

Lemma coreLogger_value (a : EggApplication) :
  fst (coreLogger a) = Normal (coreLogger_ (current_loggers a)).
Proof.
  unfold coreLogger, loggers, bind, ret, current_loggers.
  destruct (LOGGERS a); reflexivity.
Qed.

Lemma logger_value (a : EggApplication) :
  fst (logger a) = Normal (logger_ (current_loggers a)).
Proof.
  unfold logger, loggers, bind, ret, current_loggers.
  destruct (LOGGERS a); reflexivity.
Qed.

Lemma handle_all_loggers (vs : list JSValue) (a : EggApplication) :
  Forall (fun v => loggable v = true) vs ->
  exists recs,
    fst (handle_all vs a) = Normal tt
    /\ current_loggers (snd (handle_all vs a))
       = {| logger_ := logger_ (current_loggers a);
            coreLogger_ := (coreLogger_ (current_loggers a) ++ recs)%list |}
    /\ Forall2 (fun v r => exists e, r = error_record e /\ logged_as v e) vs recs
    /\ console (snd (handle_all vs a)) = console a
    /\ events (snd (handle_all vs a)) = events a
    /\ barrier (snd (handle_all vs a)) = barrier a.
Proof.
  intros Hvs; revert a; induction Hvs as [|v vs Hv Hvs IH]; intros a.
  - exists []. simpl. rewrite app_nil_r.
    repeat split; auto. destruct (current_loggers a); reflexivity.
  - unfold handle_all in *; simpl. unfold bind.
    destruct (handler_outcome v a) as [Hlog _].
    destruct (Hlog Hv) as (e & -> & He).
    match goal with |- context [forEach vs _ ?x] =>
      destruct (IH x) as (recs & Hn & Hl & Hf & Hc & Hev & Hb) end.
    exists (error_record e :: recs).
    rewrite current_loggers_set in Hl; simpl in Hl.
    repeat split; auto.
    + rewrite Hl, <- app_assoc. reflexivity.
    + constructor; eauto.
Qed.

(** X8.  Loggable rejections reaching the handler one after the other are
    all logged: the handler returns each time, the core logger receives one
    [error] call per rejection, in arrival order and each with its
    normalised error, and the application logger, the console and the
    barrier see nothing. *)
Theorem handler_logs_every_rejection
        (vs : list JSValue) (a : EggApplication) (L : Logger) :
  Forall (fun v => loggable v = true) vs ->
  fst (coreLogger a) = Normal L ->
  exists recs,
    fst (handle_all vs a) = Normal tt
    /\ fst (coreLogger (snd (handle_all vs a))) = Normal (L ++ recs)%list
    /\ Forall2 (fun v r => exists e, r = error_record e /\ logged_as v e) vs recs
    /\ fst (logger (snd (handle_all vs a))) = fst (logger a)
    /\ console (snd (handle_all vs a)) = console a
    /\ barrier (snd (handle_all vs a)) = barrier a.
Proof.
  intros Hvs. rewrite coreLogger_value. intros HL; inversion HL; subst L.
  destruct (handle_all_loggers a Hvs) as (recs & Hn & Hl & Hf & Hc & _ & Hb).
  exists recs. rewrite coreLogger_value, !logger_value, Hl. simpl.
  repeat split; auto.
Qed.

(** X9.  Normalising is idempotent: the value the handler logs for a
    loggable rejection is itself loggable and is logged unchanged when it
    reaches the handler again. *)
Theorem handler_normalisation_is_idempotent
        (v : JSValue) (a : EggApplication) (L : Logger) :
  loggable v = true ->
  fst (coreLogger a) = Normal L ->
  exists e,
    fst (coreLogger (snd (_unhandledRejectionHandler v a)))
    = Normal (L ++ [error_record e])%list
    /\ loggable e = true
    /\ fst (coreLogger
              (snd (_unhandledRejectionHandler e
                      (snd (_unhandledRejectionHandler v a)))))
       = Normal (L ++ [error_record e; error_record e])%list.
Proof.
  intros Hv. rewrite coreLogger_value. intros HL; inversion HL; subst L.
  destruct (handler_outcome v a) as [Hlog _].
  destruct (Hlog Hv) as (e & -> & He). exists e.
  cbn [snd].
  assert (Hle : loggable e = true).
  { destruct He as (Herr & Hname & _).
    destruct e as [| |b|z| |s| |els|n m| |n m]; try discriminate; simpl.
    - reflexivity.
    - destruct (String.eqb n "Error") eqn:E; [|reflexivity].
      apply String.eqb_eq in E. subst n. now elim Hname. }
  split; [now rewrite coreLogger_value|]. split; [exact Hle|].
  match goal with |- context [_unhandledRejectionHandler e ?x] =>
    destruct (handler_outcome e x) as [Hlog' _];
    destruct (Hlog' Hle) as (e' & -> & He') end.
  cbn [snd]. rewrite coreLogger_value, !current_loggers_set; cbn [coreLogger_].
  rewrite <- app_assoc; cbn [app].
  destruct He as (Herr & Hname & _), He' as (_ & _ & _ & Hkeep & Hfrozen).
  destruct e as [| |b|z| |s| |els|n m| |n m]; try discriminate.
  - rewrite (Hkeep n m eq_refl).
    destruct (String.eqb n "Error") eqn:E; [|reflexivity].
    apply String.eqb_eq in E. subst n. now elim Hname.
  - rewrite (Hfrozen n m eq_refl). reflexivity.
Qed.

Lemma emit_two_subscriptions (a : EggApplication) (e : Event) :
  events a = [("ready_stat", log_ready_stat); ("ready_timeout", log_ready_timeout)] ->
  emit e a = (Normal tt, set_console a (console a ++ log_line e)%list).
Proof.
  unfold emit. intros ->. destruct e; simpl; try reflexivity.
  unfold ret. now rewrite app_nil_r, set_console_same.
Qed.

(** X10.  On an instance the constructor returned, any sequence of barrier
    events is heard without a raise and leaves on the console exactly one
    line per [ready_stat] and per [ready_timeout], in the order of the
    events, and none for [ready]. *)
Theorem constructed_instance_logs_each_event
        (opts : option Options.t) (p p' : Process.t) (a : EggApplication)
        (evs : list Event) :
  constructor opts p = (Normal a, p') ->
  forEach evs emit a
  = (Normal tt, set_console a (console a ++ flat_map log_line evs)%list).
Proof.
  intros H. destruct (constructor_normal _ _ H) as (l & _ & _ & _ & Ha & _).
  assert (Hev : events a = [("ready_stat", log_ready_stat);
                            ("ready_timeout", log_ready_timeout)]).
  { subst a. rewrite initReady_result. reflexivity. }
  clear H Ha. revert a Hev; induction evs as [|e evs IH]; intros a Hev; simpl.
  - unfold ret. now rewrite app_nil_r, set_console_same.
  - unfold bind. rewrite (emit_two_subscriptions a e Hev).
    rewrite IH by exact Hev. simpl. now rewrite <- app_assoc.
Qed.

(** X11.  [_initReady] is not idempotent: run again on a constructed
    instance it subscribes again, and from then on every [ready_stat] and
    [ready_timeout] event is logged twice. *)
Theorem initReady_again_doubles_the_log
        (opts : option Options.t) (p p' : Process.t) (a : EggApplication)
        (e : Event) :
  constructor opts p = (Normal a, p') ->
  fst (_initReady a) = Normal tt
  /\ emit e (snd (_initReady a))
     = (Normal tt,
        set_console (snd (_initReady a))
                    (console a ++ log_line e ++ log_line e)%list).
Proof.
  intros H. destruct (constructor_normal _ _ H) as (l & _ & _ & _ & -> & _).
  rewrite !initReady_result. split; [reflexivity|].
  unfold emit. destruct e; cbn;
    unfold bind, console_info, console_warn, modify, ret, log, set_console;
    cbn; rewrite <- ?app_assoc, ?app_nil_r; cbn; reflexivity.
Qed.

(** X12.  Construction keeps the installed handlers distinct: in a process
    where no function object is installed twice, a construction installs a
    function object that was not installed before, and no function object is
    installed twice afterwards either. *)
Theorem constructor_installs_a_fresh_handler
        (opts : option Options.t) (p : Process.t) :
  handlers_fresh p ->
  handlers_fresh (snd (constructor opts p))
  /\ (forall a p', constructor opts p = (Normal a, p') ->
      ~ In (_unhandledRejectionHandler_ref a) (Process.unhandledRejection p)).
Proof.
  intros [Hd Hlt].
  pose proof (constructor_process opts p) as Hp.
  destruct (constructor opts p) as [[a|e] p1] eqn:E; simpl; subst p1.
  - assert (Hnew : ~ In (Process.BoundFunction (Process.next_oid p))
                        (Process.unhandledRejection p)).
    { intros Hin. apply Hlt in Hin. lia. }
    split.
    + split; simpl.
      * apply NoDup_app; auto.
        -- constructor; [intros []|constructor].
        -- intros x Hx [<-|[]]. now apply Hnew.
      * intros n Hin. apply in_app_iff in Hin as [Hin|[Hin|[]]].
        -- apply Hlt in Hin. lia.
        -- inversion Hin; lia.
    + intros a' p' Heq. inversion Heq; subst a' p'.
      destruct (constructor_normal _ _ E) as (l & _ & _ & _ & -> & _).
      exact Hnew.
  - split; [split; assumption|]. intros a' p' Heq; discriminate.
Qed.

(** X13.  Constructing without an options object never succeeds: an
    assertion fails and the process is untouched; when the working directory
    is a directory, it is the assertion on [type]. *)
Theorem constructor_without_options_fails (p : Process.t) :
  exists msg,
    constructor None p = (Throw (AssertionError msg), p)
    /\ (is_directory_on p (JSString (Process.cwd p)) = true ->
        msg = "options.type should be application or agent").
Proof.
  rewrite constructor_spec, check_options_spec.
  unfold validated_baseDir, js_or, is_directory_on; cbn -[append Process.fs].
  destruct (Process.fs p (Process.cwd p)) as [[|]|];
    eexists; split; try reflexivity; intros H; try discriminate; reflexivity.
Qed.

(** X14.  A truthy [baseDir] that is not a relative path makes the outcome
    of the construction independent of the working directory of the
    process. *)
Theorem explicit_baseDir_ignores_cwd
        (o : Options.t) (p : Process.t) (d : string) :
  truthy (Options.baseDir o) = true ->
  (forall s, Options.baseDir o = JSString s -> Process.is_absolute s = true) ->
  fst (constructor (Some o) (set_cwd p d)) = fst (constructor (Some o) p).
Proof.
  intros Ht Habs. rewrite !constructor_spec, !check_options_spec.
  unfold validated_baseDir, js_or; simpl. rewrite Ht.
  destruct (Options.baseDir o) as [| |b|n| |s| |els|n m| |n m] eqn:Hbd;
    try reflexivity.
  assert (Hfs : Process.fs (set_cwd p d) s = Process.fs p s).
  { unfold Process.fs, Process.absolute; simpl.
    now rewrite (Habs s eq_refl). }
  rewrite Hfs.
  destruct (Process.fs p s) as [[|]|]; try reflexivity.
  destruct (type_accepted o); [|reflexivity].
  cbn [Options.baseDir Options.plugins Options.set_baseDir].
  destruct (loadConfig _) as [[[]|e] l]; reflexivity.
Qed.

(** X15.  Every falsy [baseDir] (absent, [null], [0], [false], [NaN] or the
    empty string) makes the constructor behave exactly as if
    [process.cwd()] had been passed. *)
Theorem falsy_baseDir_means_cwd (opts : option Options.t) (p : Process.t) :
  truthy (Options.baseDir (Options.or_empty opts)) = false ->
  constructor opts p
  = constructor (Some (Options.set_baseDir (Options.or_empty opts)
                                           (JSString (Process.cwd p)))) p.
Proof.
  intros Hf.
  assert (Hbd : validated_baseDir opts p = JSString (Process.cwd p)).
  { unfold validated_baseDir, js_or. now rewrite Hf. }
  assert (Hbd' : validated_baseDir
                   (Some (Options.set_baseDir (Options.or_empty opts)
                                              (JSString (Process.cwd p)))) p
                 = JSString (Process.cwd p)).
  { unfold validated_baseDir, js_or; simpl. destruct (negb _); reflexivity. }
  rewrite !constructor_spec, !check_options_spec, Hbd, Hbd'. reflexivity.
Qed.

End EggMore.

(* ================================================================= *)
(** * The further properties at concrete inputs *)

Lemma loadCustom_threads_context_witness :
  EggLoader.app
    (snd (EggLoader.loadCustom Examples.slash_join EggLoader.app_kind
                               Examples.loader0))
  = ["one"; "app"].
Proof.
  rewrite (@loadCustom_threads_context _ Examples.slash_join EggLoader.app_kind
             Examples.loader0
             (snd (EggLoader.loadCustom Examples.slash_join EggLoader.app_kind
                                        Examples.loader0))
             eq_refl).
  reflexivity.
Defined.

Lemma loadCustom_enters_a_prefix_witness :
  exists u,
    In u Examples.three_units
    /\ EggLoader.resolve Examples.loader0
         (EggLoader.hook_path Examples.slash_join EggLoader.agent_kind u)
       <> None.
Proof.
  destruct (@loadCustom_enters_a_prefix _ Examples.slash_join
              EggLoader.agent_kind Examples.loader0)
    as (n & _ & _ & _ & Hthrow).
  destruct (Hthrow (JSError "Error" "boom in two") eq_refl)
    as (u & Hnth & _ & Hres).
  exists u. split; [|exact Hres].
  apply nth_error_In in Hnth. exact Hnth.
Defined.

Lemma loadCustom_twice_witness :
  EggLoader.invoked
    (EggLoader.hook_log
       (snd ((EggLoader.loadCustom Examples.slash_join EggLoader.app_kind ;;;
              EggLoader.loadCustom Examples.slash_join EggLoader.app_kind)
               Examples.loader0)))
  = ["plugins/one/app.js"; "app/app.js"; "plugins/one/app.js"; "app/app.js"].
Proof.
  assert (E : (EggLoader.loadCustom Examples.slash_join EggLoader.app_kind ;;;
               EggLoader.loadCustom Examples.slash_join EggLoader.app_kind)
                Examples.loader0
              = (Normal tt,
                 snd ((EggLoader.loadCustom Examples.slash_join EggLoader.app_kind ;;;
                       EggLoader.loadCustom Examples.slash_join EggLoader.app_kind)
                        Examples.loader0)))
    by (vm_compute; reflexivity).
  rewrite (@loadCustom_twice _ _ _ _ _ _ E).
  vm_compute. reflexivity.
Defined.

Lemma constructor_assertion_messages_witness :
  @Egg.constructor Examples.plain_loader
     (Some {| Options.baseDir := JSString "/nowhere"; Options.type := JSNull;
              Options.plugins := JSUndefined |})
     Examples.process0
  = (Throw (AssertionError "Directory /nowhere not exists"), Examples.process0)
  /\ @Egg.constructor Examples.plain_loader
       (Some (Examples.app_options (JSString "/srv/demo/package.json")))
       Examples.process0
     = (Throw (AssertionError
                 "Directory /srv/demo/package.json is not a directory"),
        Examples.process0)
  /\ @Egg.constructor Examples.plain_loader
       (Some {| Options.baseDir := JSString "/srv/demo";
                Options.type := JSString "worker";
                Options.plugins := JSUndefined |})
       Examples.process0
     = (Throw (AssertionError "options.type should be application or agent"),
        Examples.process0).
Proof.
  split; [|split].
  - destruct (@constructor_assertion_messages Examples.plain_loader
                (Some {| Options.baseDir := JSString "/nowhere";
                         Options.type := JSNull;
                         Options.plugins := JSUndefined |})
                Examples.process0 "/nowhere" eq_refl) as (H & _).
    exact (H eq_refl).
  - destruct (@constructor_assertion_messages Examples.plain_loader
                (Some (Examples.app_options (JSString "/srv/demo/package.json")))
                Examples.process0 "/srv/demo/package.json" eq_refl)
      as (_ & H & _).
    exact (H eq_refl).
  - destruct (@constructor_assertion_messages Examples.plain_loader
                (Some {| Options.baseDir := JSString "/srv/demo";
                         Options.type := JSString "worker";
                         Options.plugins := JSUndefined |})
                Examples.process0 "/srv/demo" eq_refl) as (_ & _ & H).
    exact (H eq_refl eq_refl).
Defined.

Lemma constructor_result_is_valid_witness :
  Egg.type (Examples.built (JSString "/srv/demo") 0) = JSString "application"
  /\ Process.cwd Examples.process1 = "/srv/demo".
Proof.
  destruct (@constructor_result_is_valid Examples.plain_loader
              (Some (Examples.app_options (JSString "/srv/demo")))
              Examples.process0 Examples.process1
              (Examples.built (JSString "/srv/demo") 0) eq_refl)
    as (_ & Hty & _ & _ & Hc & _).
  split; [exact Hty|exact Hc].
Defined.

Lemma constructor_propagates_loadConfig_failure_witness :
  @Egg.constructor Expected.failing_loader
     (Some (Examples.app_options (JSString "/srv/demo"))) Examples.process0
  = (Throw Expected.config_error, Examples.process0).
Proof.
  apply (@constructor_propagates_loadConfig_failure Expected.failing_loader
           (Some (Examples.app_options (JSString "/srv/demo")))
           Examples.process0 Expected.config_error tt);
    reflexivity.
Defined.


Lemma handler_logs_every_rejection_witness :
  exists recs,
    fst (@Egg.coreLogger Examples.plain_loader
           (snd (@Expected.handle_all Examples.plain_loader
                   [JSString "boom"; JSError "TypeError" "x is not a function"]
                   Examples.blank_app)))
    = Normal recs
    /\ List.length recs = 2.
Proof.
  assert (Hvs : Forall (fun v => Expected.loggable v = true)
                       [JSString "boom"; JSError "TypeError" "x is not a function"])
    by (repeat constructor).
  destruct (@handler_logs_every_rejection Examples.plain_loader
              [JSString "boom"; JSError "TypeError" "x is not a function"]
              Examples.blank_app [] Hvs eq_refl)
    as (recs & _ & Hc & Hf & _).
  exists recs. split; [exact Hc|].
  apply Forall2_length in Hf. now rewrite <- Hf.
Defined.

Lemma handler_normalisation_is_idempotent_witness :
  exists e,
    fst (@Egg.coreLogger Examples.plain_loader
           (snd (@Egg._unhandledRejectionHandler Examples.plain_loader
                   e
                   (snd (@Egg._unhandledRejectionHandler Examples.plain_loader
                           JSNull Examples.blank_app)))))
    = Normal [Expected.error_record e; Expected.error_record e].
Proof.
  destruct (@handler_normalisation_is_idempotent Examples.plain_loader
              JSNull Examples.blank_app [] eq_refl eq_refl)
    as (e & _ & _ & H).
  exists e. exact H.
Defined.

Lemma constructed_instance_logs_each_event_witness :
  Egg.console
    (snd (forEach
            [ReadyCallback.ready_stat (ReadyCallback.Named "db") [];
             ReadyCallback.ready;
             ReadyCallback.ready_timeout (ReadyCallback.Named "cache")]
            (@Egg.emit Examples.plain_loader)
            (Examples.built (JSString "/srv/demo") 0)))
  = [{| Egg.level := Egg.INFO;
        Egg.message :=
          JSString "[egg:core:ready_stat] end ready task %s, remain %j";
        Egg.args := [JSString "db"; JSArray []] |};
     {| Egg.level := Egg.WARN;
        Egg.message :=
          JSString
            "[egg:core:ready_timeout] 10 seconds later %s was still unable to finish.";
        Egg.args := [JSString "cache"] |}].
Proof.
  rewrite (@constructed_instance_logs_each_event Examples.plain_loader
             (Some (Examples.app_options (JSString "/srv/demo")))
             Examples.process0 Examples.process1
             (Examples.built (JSString "/srv/demo") 0) _ eq_refl).
  reflexivity.
Defined.

Lemma initReady_again_doubles_the_log_witness :
  List.length
    (Egg.console
       (snd (@Egg.emit Examples.plain_loader
               (ReadyCallback.ready_timeout (ReadyCallback.Named "cache"))
               (snd (@Egg._initReady Examples.plain_loader
                       (Examples.built (JSString "/srv/demo") 0))))))
  = 2.
Proof.
  destruct (@initReady_again_doubles_the_log Examples.plain_loader
              (Some (Examples.app_options (JSString "/srv/demo")))
              Examples.process0 Examples.process1
              (Examples.built (JSString "/srv/demo") 0)
              (ReadyCallback.ready_timeout (ReadyCallback.Named "cache"))
              eq_refl)
    as (_ & H).
  rewrite H. reflexivity.
Defined.

Lemma constructor_installs_a_fresh_handler_witness :
  Expected.handlers_fresh
    (snd (@Egg.constructor Examples.plain_loader
            (Some (Examples.app_options (JSString "/srv/demo")))
            Examples.process1)).
Proof.
  apply (@constructor_installs_a_fresh_handler Examples.plain_loader
           (Some (Examples.app_options (JSString "/srv/demo")))
           Examples.process1).
  split; simpl.
  - constructor; [intros []|constructor].
  - intros n [H|[]]. inversion H. lia.
Defined.

Lemma constructor_without_options_fails_witness :
  @Egg.constructor Examples.plain_loader None Examples.process0
  = (Throw (AssertionError "options.type should be application or agent"),
     Examples.process0).
Proof.
  destruct (@constructor_without_options_fails Examples.plain_loader
              Examples.process0) as (msg & Hrun & Hmsg).
  rewrite Hrun, (Hmsg eq_refl). reflexivity.
Defined.

Lemma explicit_baseDir_ignores_cwd_witness :
  fst (@Egg.constructor Examples.plain_loader
         (Some (Examples.app_options (JSString "/srv/demo")))
         (Expected.set_cwd Examples.process0 "/tmp"))
  = Normal (Examples.built (JSString "/srv/demo") 0).
Proof.
  rewrite (@explicit_baseDir_ignores_cwd Examples.plain_loader
             (Examples.app_options (JSString "/srv/demo"))
             Examples.process0 "/tmp" eq_refl).
  - reflexivity.
  - intros s H. inversion H. reflexivity.
Defined.

Lemma falsy_baseDir_means_cwd_witness :
  @Egg.constructor Examples.plain_loader
     (Some (Examples.app_options (JSString ""))) Examples.process0
  = (Normal (Examples.built (JSString "/srv/demo") 0), Examples.process1).
Proof.
  rewrite (@falsy_baseDir_means_cwd Examples.plain_loader
             (Some (Examples.app_options (JSString ""))) Examples.process0
             eq_refl).
  reflexivity.
Defined.
